(** * Marker gene overlap (scanpy/tools/_marker_gene_overlap.py)

    A shallow embedding of [_calc_overlap_count], [_calc_overlap_coef],
    [_calc_jaccard] and [marker_gene_overlap], and the properties of the
    overlap scores, of the marker selection and of the error behaviour.

    Modelling choices.
    - A set of gene names is a [gset string]; a Python dict, whose keys are
      distinct and which iterates in insertion order, is the list of its
      items.
    - A float is the rational number it holds, or one of the special
      values [NaN], [PosInf], [NegInf]. numpy's addition and division
      round their exact result to the nearest double ([round64]: 53 bits,
      ties to even, subnormal numbers and overflow included); the sign of
      zero is not kept. Python's quotient of two lengths is kept as the
      exact fraction: what is stated of it (order, bounds, being 0 or 1)
      is what rounding to the nearest double preserves.
    - [adata.uns] and the messages given to [logg] are the state threaded
      through [marker_gene_overlap]; a Python exception is the [Raise]
      outcome. *)

From Stdlib Require Import QArith Qabs Qpower Qreduction ZArith Lia.
From stdpp Require Import gmap strings list.

Local Open Scope string_scope.
Set Warnings "-clear-no-such-hyp".

(** ** Exceptions and fallible computations *)

Inductive exn : Type :=
| ValueError (msg : string)
| KeyError (k : string)
| ZeroDivisionError
| UnboundLocalError (var : string).

Inductive result (A : Type) : Type :=
| Ok (a : A)
| Raise (e : exn).
Arguments Ok {A} a.
Arguments Raise {A} e.

Definition rbind {A B} (r : result A) (k : A → result B) : result B :=
  match r with
  | Ok a => k a
  | Raise e => Raise e
  end.

Fixpoint rmapM {A B} (f : A → result B) (l : list A) : result (list B) :=
  match l with
  | [] => Ok []
  | x :: l' =>
      rbind (f x) (λ y, rbind (rmapM f l') (λ ys, Ok (y :: ys)))
  end.

(** ** Floats *)

Inductive float64 : Type :=
| Finite (q : Q)
| NaN
| PosInf
| NegInf.

Definition Qltb (x y : Q) : bool := negb (Qle_bool y x).
Definition Qis_zero (x : Q) : bool := Qeq_bool x 0.

(** Python's [a / b] on two lengths: a float, or [ZeroDivisionError]. *)
Definition py_truediv (a b : nat) : result float64 :=
  match b with
  | O => Raise ZeroDivisionError
  | S _ => Ok (Finite (Z.of_nat a # Pos.of_nat b))
  end.

Definition of_count (n : nat) : float64 := Finite (inject_Z (Z.of_nat n)).

(** *** Rounding to the nearest double *)

(** [2^e] *)
Definition pow2 (e : Z) : Q := Qpower 2 e.

(** The integer nearest to [x], the even one of the two on a tie. *)
Definition round_half_even (x : Q) : Z :=
  let f := (Qnum x / Z.pos (Qden x))%Z in
  let r := (Qnum x mod Z.pos (Qden x))%Z in
  match (2 * r ?= Z.pos (Qden x))%Z with
  | Lt => f
  | Gt => (f + 1)%Z
  | Eq => if Z.even f then f else (f + 1)%Z
  end.

(** The largest [l] with [2^l <= x], for [x > 0]. *)
Definition floor_log2 (x : Q) : Z :=
  let l := (Z.log2 (Qnum x) - Z.log2 (Z.pos (Qden x)))%Z in
  if Qle_bool (pow2 l) x then l else (l - 1)%Z.

(** The double nearest to [x]: a multiple of [2^e], where [e] leaves 53
    bits to the multiplier and is at least -1074; an infinity when the
    result reaches [2^1024]. *)
Definition round64_reduced (x : Q) : float64 :=
  if Qis_zero x then Finite 0
  else
    let e := Z.max (floor_log2 (Qabs x) - 52) (-1074) in
    let y := Qred (inject_Z (round_half_even (x / pow2 e)) * pow2 e) in
    if Qle_bool (pow2 1024) (Qabs y) then
      if Qltb 0 x then PosInf else NegInf
    else Finite y.

Definition round64 (x : Q) : float64 := round64_reduced (Qred x).

(** numpy's float addition and division: no exception, special values,
    the exact result rounded. *)
Definition np_add (x y : float64) : float64 :=
  match x, y with
  | Finite a, Finite b => round64 (a + b)
  | NaN, _ | _, NaN => NaN
  | PosInf, NegInf | NegInf, PosInf => NaN
  | PosInf, _ | _, PosInf => PosInf
  | NegInf, _ | _, NegInf => NegInf
  end.

Definition np_divide (x y : float64) : float64 :=
  match x, y with
  | NaN, _ | _, NaN => NaN
  | Finite a, Finite b =>
      if Qis_zero b then
        if Qis_zero a then NaN else if Qltb 0 a then PosInf else NegInf
      else round64 (a / b)
  | Finite _, (PosInf | NegInf) => Finite 0
  | (PosInf | NegInf), (PosInf | NegInf) => NaN
  | PosInf, Finite b => if Qltb b 0 then NegInf else PosInf
  | NegInf, Finite b => if Qltb b 0 then PosInf else NegInf
  end.

(** The largest finite double, [(2 - 2^-52) * 2^1023]. *)
Definition float_max : Q := inject_Z ((2 ^ 53 - 1) * 2 ^ 971).

Definition nan_to_num1 (x : float64) : float64 :=
  match x with
  | Finite a => Finite a
  | NaN => Finite 0
  | PosInf => Finite float_max
  | NegInf => Finite (- float_max)
  end.

(** ** Matrices *)

Abbreviation matrix := (list (list float64)).

Definition np_sum (v : list float64) : float64 := foldl np_add (Finite 0) v.

(** [m.sum(1)]: the sum of each row. *)
Definition sum_axis1 (m : matrix) : list float64 := np_sum <$> m.

(** [m.sum(0)]: the sum of each column of a matrix of [ncols] columns. *)
Definition sum_axis0 (ncols : nat) (m : matrix) : list float64 :=
  foldl (zip_with np_add) (replicate ncols (Finite 0)) m.

(** [m / s[:, np.newaxis]]: row [j] is divided by [s[j]]. *)
Definition divide_by_column_vector (m : matrix) (s : list float64) : matrix :=
  zip_with (λ (row : list float64) d, (λ x, np_divide x d) <$> row) m s.

(** [m / s]: entry [i] of each row is divided by [s[i]]. *)
Definition divide_by_row_vector (m : matrix) (s : list float64) : matrix :=
  (λ row, zip_with np_divide row s) <$> m.

Definition nan_to_num (m : matrix) : matrix :=
  (λ row : list float64, nan_to_num1 <$> row) <$> m.

(** ** Dicts of gene sets and the three scores *)

Abbreviation dict V := (list (string * V)).

Definition dict_keys {V} (d : dict V) : list string := fst <$> d.

(** [d[k] = v]: an existing key keeps its place. *)
Fixpoint dict_set {V} (d : dict V) (k : string) (v : V) : dict V :=
  match d with
  | [] => [(k, v)]
  | (k', v') :: d' =>
      if String.eqb k' k then (k, v) :: d' else (k', v') :: dict_set d' k v
  end.

Abbreviation geneset := (gset string).

(** One cell of each score, for the value [R] of [markers1] and the value
    [D] of [markers2]. *)
Definition overlap_count_cell (R D : geneset) : float64 :=
  of_count (size (D ∩ R)).

Definition overlap_coef_cell (R D : geneset) : result float64 :=
  py_truediv (size (D ∩ R)) (Nat.max (Nat.min (size D) (size R)) 1).

Definition jaccard_cell (R D : geneset) : result float64 :=
  py_truediv (size (D ∩ R)) (size (D ∪ R)).

(** The loops: one row per item of [markers1], in order, each holding one
    entry per item of [markers2], in order. *)
Definition _calc_overlap_count (markers1 markers2 : dict geneset) : matrix :=
  (λ g, (λ i, overlap_count_cell g.2 i.2) <$> markers2) <$> markers1.

Definition _calc_overlap_coef (markers1 markers2 : dict geneset)
  : result matrix :=
  rmapM (λ g, rmapM (λ i, overlap_coef_cell g.2 i.2) markers2) markers1.

Definition _calc_jaccard (markers1 markers2 : dict geneset) : result matrix :=
  rmapM (λ g, rmapM (λ i, jaccard_cell g.2 i.2) markers2) markers1.

(** ** The ranked marker table and [adata.uns] *)

(** A numpy record array: [shape0] rows, one named column per field. *)
Record recarray (A : Type) : Type := RecArray {
  shape0 : nat;
  fields : list (string * list A)
}.
Arguments RecArray {A} shape0 fields.
Arguments shape0 {A} r.
Arguments fields {A} r.

(** [arr.dtype.names] *)
Definition dtype_names {A} (arr : recarray A) : list string :=
  fst <$> fields arr.

Fixpoint assoc {A} (l : list (string * A)) (k : string) : option A :=
  match l with
  | [] => None
  | (k', v) :: l' => if String.eqb k' k then Some v else assoc l' k
  end.

(** [arr[name]] *)
Definition getfield {A} (arr : recarray A) (name : string)
  : result (list A) :=
  match assoc (fields arr) name with
  | Some col => Ok col
  | None => Raise (ValueError ("no field of name " ++ name))
  end.

(** [pd.DataFrame(values, index=..., columns=...)]. The field names of a
    record array are distinct, so the matrix built from them has one
    column per label. *)
Record DataFrame : Type := MkDataFrame {
  df_values : matrix;
  df_index : list string;
  df_columns : list string
}.

(** What [adata.uns] holds under a key: the output of rank_genes_groups, a
    dict that may have a record array under 'names' and under 'pvals_adj',
    or a data frame stored by an earlier call. *)
Inductive uns_value : Type :=
| RankGenesGroups (names : option (recarray string))
                  (pvals_adj : option (recarray Q))
| Frame (df : DataFrame).

(** [v['names']] and [v['pvals_adj']] *)
Definition get_names (v : uns_value) : result (recarray string) :=
  match v with
  | RankGenesGroups (Some arr) _ => Ok arr
  | _ => Raise (KeyError "names")
  end.

Definition get_pvals_adj (v : uns_value) : result (recarray Q) :=
  match v with
  | RankGenesGroups _ (Some arr) => Ok arr
  | _ => Raise (KeyError "pvals_adj")
  end.

(** ** State: [adata.uns] and the log *)

Inductive log_record : Type :=
| LogWarn (msg : string)
| LogHint (msg : string).

Record world : Type := World {
  uns : gmap string uns_value;
  log : list log_record
}.

Definition M (A : Type) : Type := world → world * result A.

Definition ret {A} (a : A) : M A := λ w, (w, Ok a).

Definition bind {A B} (c : M A) (k : A → M B) : M B :=
  λ w, match c w with
       | (w', Ok a) => k a w'
       | (w', Raise e) => (w', Raise e)
       end.

Definition raise {A} (e : exn) : M A := λ w, (w, Raise e).

Definition lift {A} (r : result A) : M A := λ w, (w, r).

Definition get_uns : M (gmap string uns_value) := λ w, (w, Ok (uns w)).

(** [adata.uns[k] = v] *)
Definition set_uns (k : string) (v : uns_value) : M unit :=
  λ w, (World (<[k := v]> (uns w)) (log w), Ok tt).

Definition logg_warn (msg : string) : M unit :=
  λ w, (World (uns w) (log w ++ [LogWarn msg]), Ok tt).

Definition logg_hint (msg : string) : M unit :=
  λ w, (World (uns w) (log w ++ [LogHint msg]), Ok tt).

Definition when (b : bool) (c : M unit) : M unit := if b then c else ret tt.

#[global] Instance result_ret : MRet result := @Ok.
#[global] Instance result_bind : MBind result := λ A B k r, rbind r k.
#[global] Instance result_fmap : FMap result :=
  λ A B f r, rbind r (λ a, Ok (f a)).
#[global] Instance M_ret : MRet M := @ret.
#[global] Instance M_bind : MBind M := λ A B k c, bind c k.

(** ** Arguments of [marker_gene_overlap] *)

(** A value of [reference_markers]: a set, or a list of names. *)
Inductive pyobj : Type :=
| PySet (s : geneset)
| PyList (l : list string).

(** [isinstance(val, set)] for every value, giving the values as sets. *)
Definition as_set (v : pyobj) : option geneset :=
  match v with
  | PySet s => Some s
  | PyList _ => None
  end.

Fixpoint as_sets (d : dict pyobj) : option (dict geneset) :=
  match d with
  | [] => Some []
  | (k, v) :: d' =>
      match as_set v, as_sets d' with
      | Some s, Some r => Some ((k, s) :: r)
      | _, _ => None
      end
  end.

Definition avail_methods : list (option string) :=
  [Some "overlap_count"; Some "overlap_coef"; Some "jaccard"; Some "enrich"].

Definition avail_norm : list (option string) :=
  [Some "reference"; Some "data"; None].

(** [x in s] *)
Definition py_in (x : option string) (s : list (option string)) : bool :=
  bool_decide (x ∈ s).

Definition msg_method : string :=
  "Method must be one of {'overlap_count', 'overlap_coef', 'jaccard', 'enrich'}.".
Definition msg_normalize : string :=
  "Normalize must be one of {'reference', 'data', None}.".
Definition msg_only_count : string :=
  "Can only normalize with method=`overlap_count`.".
Definition msg_not_sets : string :=
  "Please ensure that `reference_markers` contains sets of markers as values.".
Definition msg_pval_below : string :=
  "`adj_pval_threshold` was set below 0. Threshold will be set to 0.".
Definition msg_pval_above : string :=
  "`adj_pval_threshold` was set above 1. Threshold will be set to 1.".
Definition msg_both : string :=
  "Both `adj_pval_threshold` and `top_n_markers` is set. `adj_pval_threshold` will be ignored.".
Definition msg_top_n : string :=
  "`top_n_markers` was set below 1. `top_n_markers` will be set to 1.".
Definition msg_added (key_added : string) : string :=
  "added" ++ String (Ascii.ascii_of_nat 10)
    ("    '" ++ key_added ++ "', marker overlap scores (adata.uns)").

(** ** Inputs used in the examples

    The reference of the first scenario, and a table of one cluster with
    two ranked genes. *)

Definition pbmc_reference : dict pyobj :=
  [("Tcell", PySet {["CD3"; "CD4"]}); ("Bcell", PySet {["CD19"; "MS4A1"]})].

Definition pbmc_table : uns_value :=
  RankGenesGroups (Some (RecArray 2 [("0", ["CD3"; "CD8"])]))
                  (Some (RecArray 2 [("0", [1 # 100; 1 # 2]%Q)])).

Definition pbmc_world : world :=
  World {["rank_genes_groups" := pbmc_table]} [].

(** A reference group of six genes, and six clusters of one of these
    genes each. *)
Definition six_reference_genes : geneset :=
  {["g1"; "g2"; "g3"; "g4"; "g5"; "g6"]}.

Definition six_reference : dict geneset := [("A", six_reference_genes)].

Definition six_clusters : dict geneset :=
  [("1", {["g1"]}); ("2", {["g2"]}); ("3", {["g3"]});
   ("4", {["g4"]}); ("5", {["g5"]}); ("6", {["g6"]})].

(** A reference of one group holding both genes of the table, and the
    table with an adjusted p-value of exactly 1 for the second gene. *)
Definition tcell_reference : dict pyobj :=
  [("Tcell", PySet {["CD3"; "CD8"]})].

Definition unit_pval_table : uns_value :=
  RankGenesGroups (Some (RecArray 2 [("0", ["CD3"; "CD8"])]))
                  (Some (RecArray 2 [("0", [1 # 100; 1]%Q)])).

Definition unit_pval_world : world :=
  World {["rank_genes_groups" := unit_pval_table]} [].

(** ** The function, phase by phase *)

(** [l[:n]] *)
Definition py_prefix {A} (l : list A) (n : Z) : list A :=
  if (n <? 0)%Z then take (length l - Z.to_nat (- n)) l
  else take (Z.to_nat n) l.

(** [(col < t).sum()] *)
Definition count_below (col : list Q) (t : Q) : nat :=
  sum_list ((λ p, if Qltb p t then 1%nat else 0%nat) <$> col).

(** Lines 124-143: the checks of the arguments. They give the table stored
    under [key], [normalize] with the string 'None' replaced, and the
    reference markers as sets. *)
Definition test_user_inputs (reference_markers : dict pyobj) (key : string)
    (method normalize : option string)
  : M (uns_value * option string * dict geneset) :=
  u ← get_uns;
  rgg ← match u !! key with
        | None => raise (ValueError "")
        | Some v => mret v
        end;
  when (negb (py_in method avail_methods)) (raise (ValueError msg_method));;
  let normalize :=
    if bool_decide (normalize = Some "None") then None else normalize in
  when (negb (py_in normalize avail_norm))
       (raise (ValueError msg_normalize));;
  when (bool_decide (normalize ≠ None)
        && bool_decide (method ≠ Some "overlap_count"))
       (raise (ValueError msg_only_count));;
  ref ← match as_sets reference_markers with
        | None => raise (ValueError msg_not_sets)
        | Some r => mret r
        end;
  mret (rgg, normalize, ref).

(** Lines 145-158: the threshold is brought into [0,1]. *)
Definition clamp_adj_pval_threshold (top_n_markers : option Z)
    (adj_pval_threshold : option Q) : M (option Q) :=
  match adj_pval_threshold with
  | None => mret None
  | Some t =>
      t ← (if Qltb t 0 then logg_warn msg_pval_below;; mret 0%Q
           else mret t);
      t ← (if Qltb 1 t then logg_warn msg_pval_above;; mret 1%Q
           else mret t);
      when (bool_decide (top_n_markers ≠ None)) (logg_warn msg_both);;
      mret (Some t)
  end.

(** Lines 160-164: the number of markers is at least 1. *)
Definition clamp_top_n_markers (top_n_markers : option Z) : M (option Z) :=
  match top_n_markers with
  | None => mret None
  | Some n =>
      if (n <? 1)%Z then logg_warn msg_top_n;; mret (Some 1%Z)
      else mret (Some n)
  end.

(** Lines 173-181: the markers of one cluster. *)
Definition select_markers (rgg : uns_value) (top_n_markers : option Z)
    (adj_pval_threshold : option Q) (group : string) : result geneset :=
  match top_n_markers, adj_pval_threshold with
  | Some n, _ =>
      names ← get_names rgg;
      let n_genes := Z.min n (Z.of_nat (shape0 names)) in
      col ← getfield names group;
      mret (list_to_set (py_prefix col n_genes))
  | None, Some t =>
      pvals ← get_pvals_adj rgg;
      pcol ← getfield pvals group;
      let n_genes := count_below pcol t in
      names ← get_names rgg;
      col ← getfield names group;
      mret (list_to_set (take n_genes col))
  | None, None =>
      names ← get_names rgg;
      col ← getfield names group;
      mret (list_to_set col)
  end.

(** Lines 171-181: the loop over the clusters. *)
Fixpoint data_markers_loop (rgg : uns_value) (top_n_markers : option Z)
    (adj_pval_threshold : option Q) (cluster_ids : list string)
    (data_markers : dict geneset) : result (dict geneset) :=
  match cluster_ids with
  | [] => mret data_markers
  | group :: rest =>
      s ← select_markers rgg top_n_markers adj_pval_threshold group;
      data_markers_loop rgg top_n_markers adj_pval_threshold rest
        (dict_set data_markers group s)
  end.

(** Lines 189-206: [None] when no branch binds [marker_match]. *)
Definition find_overlaps (method normalize : option string)
    (reference_markers data_markers : dict geneset)
  : result (option matrix) :=
  if bool_decide (method = Some "overlap_count") then
    let marker_match := _calc_overlap_count reference_markers data_markers in
    if bool_decide (normalize = Some "reference") then
      mret (Some (nan_to_num
        (divide_by_column_vector marker_match (sum_axis1 marker_match))))
    else if bool_decide (normalize = Some "data") then
      mret (Some (nan_to_num
        (divide_by_row_vector marker_match
           (sum_axis0 (length data_markers) marker_match))))
    else mret (Some marker_match)
  else if bool_decide (method = Some "overlap_coef") then
    Some <$> _calc_overlap_coef reference_markers data_markers
  else if bool_decide (method = Some "jaccard") then
    Some <$> _calc_jaccard reference_markers data_markers
  else mret None.

Definition marker_gene_overlap (reference_markers : dict pyobj)
    (key : string) (method normalize : option string)
    (top_n_markers : option Z) (adj_pval_threshold : option Q)
    (key_added : string) : M unit :=
  '(rgg, normalize, ref) ←
     test_user_inputs reference_markers key method normalize;
  adj_pval_threshold ←
     clamp_adj_pval_threshold top_n_markers adj_pval_threshold;
  top_n_markers ← clamp_top_n_markers top_n_markers;
  names ← lift (get_names rgg);
  let cluster_ids := dtype_names names in
  data_markers ← lift (data_markers_loop rgg top_n_markers
                         adj_pval_threshold cluster_ids []);
  found ← lift (find_overlaps method normalize ref data_markers);
  let marker_groups := dict_keys reference_markers in
  marker_match ← match found with
                 | None => raise (UnboundLocalError "marker_match")
                 | Some m => mret m
                 end;
  let marker_matching_df :=
    MkDataFrame marker_match marker_groups cluster_ids in
  set_uns key_added (Frame marker_matching_df);;
  logg_hint (msg_added key_added).

(** * Definitions used in the statements *)

(** The overlap coefficient as the specification writes it. *)
Definition overlap_coefficient_spec (R D : geneset) : Q :=
  inject_Z (Z.of_nat (size (R ∩ D)))
  / inject_Z (Z.max (Z.min (Z.of_nat (size R)) (Z.of_nat (size D))) 1).

(** What one cell of the overlap coefficient matrix satisfies. *)
Definition overlap_coef_cell_ok (R D : geneset) (x : float64) : Prop :=
  ∃ q, x = Finite q ∧ (q == overlap_coefficient_spec R D)%Q
       ∧ (0 <= q)%Q ∧ (q <= 1)%Q
       ∧ (R = ∅ ∨ D = ∅ → (q == 0)%Q).

(** Order on floats that are both finite. *)
Definition float_le (x y : float64) : Prop :=
  match x, y with
  | Finite a, Finite b => (a <= b)%Q
  | _, _ => False
  end.

(** The outcome of the checks of lines 124-143. *)
Definition checked_inputs (u : gmap string uns_value)
    (reference_markers : dict pyobj) (key : string)
    (method normalize : option string)
  : result (uns_value * option string * dict geneset) :=
  match u !! key with
  | None => Raise (ValueError "")
  | Some rgg =>
      if negb (py_in method avail_methods) then
        Raise (ValueError msg_method)
      else
        let normalize :=
          if bool_decide (normalize = Some "None") then None
          else normalize in
        if negb (py_in normalize avail_norm) then
          Raise (ValueError msg_normalize)
        else if bool_decide (normalize ≠ None)
                && bool_decide (method ≠ Some "overlap_count") then
          Raise (ValueError msg_only_count)
        else match as_sets reference_markers with
             | None => Raise (ValueError msg_not_sets)
             | Some r => Ok (rgg, normalize, r)
             end
  end.

(** The threshold and the number of markers after lines 145-164, and the
    warnings these lines give. *)
Definition clamped_threshold (adj_pval_threshold : option Q) : option Q :=
  (λ t, if Qltb t 0 then 0%Q else if Qltb 1 t then 1%Q else t)
    <$> adj_pval_threshold.

Definition threshold_warnings (top_n_markers : option Z)
    (adj_pval_threshold : option Q) : list log_record :=
  match adj_pval_threshold with
  | None => []
  | Some t =>
      (if Qltb t 0 then [LogWarn msg_pval_below] else [])
      ++ (if Qltb 1 t then [LogWarn msg_pval_above] else [])
      ++ (if top_n_markers is Some _ then [LogWarn msg_both] else [])
  end.

Definition clamped_top_n (top_n_markers : option Z) : option Z :=
  Z.max 1 <$> top_n_markers.

Definition top_n_warnings (top_n_markers : option Z) : list log_record :=
  match top_n_markers with
  | Some n => if (n <? 1)%Z then [LogWarn msg_top_n] else []
  | None => []
  end.

(** The data frame of lines 167-216, from checked arguments. *)
Definition overlap_frame (rgg : uns_value) (reference_markers : dict pyobj)
    (method normalize : option string) (ref : dict geneset)
    (top_n_markers : option Z) (adj_pval_threshold : option Q)
  : result DataFrame :=
  names ← get_names rgg;
  data_markers ← data_markers_loop rgg top_n_markers adj_pval_threshold
                   (dtype_names names) [];
  found ← find_overlaps method normalize ref data_markers;
  match found with
  | None => Raise (UnboundLocalError "marker_match")
  | Some m =>
      Ok (MkDataFrame m (dict_keys reference_markers) (dtype_names names))
  end.

(** [x] is the finite number [q]. *)
Definition float_eq (x : float64) (q : Q) : Prop :=
  match x with
  | Finite a => (a == q)%Q
  | _ => False
  end.

Definition count_Q (n : nat) : Q := inject_Z (Z.of_nat n).

(** One row of counts [ns], divided by its sum and passed to
    [nan_to_num]. *)
Definition normalized_row (row : list float64) : list float64 :=
  nan_to_num1 <$> ((λ x, np_divide x (np_sum row)) <$> row).

Definition row_normalized (row row' : list float64) : Prop :=
  (float_eq (np_sum row) 0 → Forall (λ x, x = Finite 0) row')
  ∧ (Exists (λ x, ¬ float_eq x 0) row → float_eq (np_sum row') 1).

(** The sum of the numbers of a row, as a rational. *)
Definition exact_sum (row : list float64) : Q :=
  foldr (λ x acc, match x with Finite q => q + acc | _ => acc end)%Q 0%Q row.

(** [row'] is [row] divided by its sum, up to rounding: a row whose sum
    is zero gives zeros; otherwise each entry of [row'] is a number within
    the fraction [2^-53] of the quotient it stands for, and the numbers of
    [row'] add up to 1 within [2^-53]. *)
Definition row_normalized_rounded (row row' : list float64) : Prop :=
  (float_eq (np_sum row) 0 → Forall (λ x, x = Finite 0) row')
  ∧ (Exists (λ x, ¬ float_eq x 0) row →
     Forall2 (λ x x', ∃ c q,
                x = Finite c ∧ x' = Finite q
                ∧ (Qabs (q - c / exact_sum row)
                   <= pow2 (-53) * (c / exact_sum row))%Q)
       row row'
     ∧ (Qabs (exact_sum row' - 1) <= pow2 (-53))%Q).

#[global] Instance Qlt_dec : RelDecision Qlt :=
  λ x y, match Qlt_le_dec x y with
         | left H => left H
         | right H => right (Qle_not_lt _ _ H)
         end.

(** The arguments that the checks of lines 124-143 reject: the key is not
    in [adata.uns], the method is not an available one, the normalization
    is not one of 'reference', 'data', None and 'None', a normalization
    comes with another method than 'overlap_count', or a value of the
    reference is not a set. *)
Definition invalid_inputs (u : gmap string uns_value)
    (reference_markers : dict pyobj) (key : string)
    (method normalize : option string) : Prop :=
  u !! key = None
  ∨ method ∉ avail_methods
  ∨ normalize ∉ Some "None" :: avail_norm
  ∨ ((normalize = Some "reference" ∨ normalize = Some "data")
     ∧ method ≠ Some "overlap_count")
  ∨ (∃ k l, (k, PyList l) ∈ reference_markers).

(** [m[i][j]], when there is such an entry. *)
Definition entry (m : matrix) (i j : nat) : option float64 :=
  m !! i ≫= (λ row : list float64, row !! j).



(** A reference group and a cluster that are both without genes. *)
Definition both_empty (markers1 markers2 : dict geneset) : Prop :=
  ∃ g i, g ∈ markers1 ∧ i ∈ markers2 ∧ g.2 = ∅ ∧ i.2 = ∅.

(** [m[:, j]]: the entries of column [j], one per row that has one. *)
Definition column (j : nat) (m : matrix) : list float64 :=
  omap (λ row : list float64, row !! j) m.

(** A float that is a number: not NaN, not an infinity. *)
Definition is_finite (x : float64) : Prop := ∃ q, x = Finite q.

(** A matrix of [nrows] rows of [ncols] numbers each. *)
Definition well_shaped (nrows ncols : nat) (m : matrix) : Prop :=
  length m = nrows
  ∧ Forall (λ row, length row = ncols) m
  ∧ Forall (Forall is_finite) m.

(** What lines 189-222 do with the reference markers [ref] and the data
    markers [data], from [adata.uns] being [u] and the log being [l]: the
    matrix is computed, put in a data frame with its labels, stored, and
    the hint is logged; an exception leaves [u] and [l] as they are. *)
Definition store_overlaps (reference_markers : dict pyobj)
    (method normalize : option string) (ref data : dict geneset)
    (cluster_ids : list string) (key_added : string)
    (u : gmap string uns_value) (l : list log_record)
  : world * result unit :=
  match find_overlaps method normalize ref data with
  | Ok (Some m) =>
      (World (<[key_added :=
                 Frame (MkDataFrame m (dict_keys reference_markers)
                          cluster_ids)]> u)
         (l ++ [LogHint (msg_added key_added)]),
       Ok tt)
  | Ok None => (World u l, Raise (UnboundLocalError "marker_match"))
  | Raise e => (World u l, Raise e)
  end.

(** One set per cluster of [names], in order: the first min(max(n, 1),
    rows) names of the cluster. *)
Definition top_n_sets (n : Z) (names : recarray string) : dict geneset :=
  (λ c : string * list string,
     (c.1, list_to_set
             (take (Nat.min (Z.to_nat (Z.max 1 n)) (shape0 names)) c.2)))
    <$> fields names.

(** One set per cluster of [names], in order: the first [k] names of the
    cluster, [k] being the number of its adjusted p-values strictly below
    [t]. *)
Definition threshold_sets (t : Q) (names : recarray string)
    (pvals : recarray Q) : dict geneset :=
  (λ c : string * list string,
     (c.1, list_to_set
             (take (length (filter (λ p, (p < t)%Q)
                              (default [] (assoc (fields pvals) c.1))))
                c.2)))
    <$> fields names.

(** One empty set per cluster of [names]. *)
Definition empty_sets (names : recarray string) : dict geneset :=
  (λ c : string * list string, (c.1, (∅ : geneset))) <$> fields names.

(** * Properties *)

(** ** Fallible loops *)

Section rmapM.
Context {A B : Type} (f : A → result B).

Lemma rmapM_Ok (P : A → B → Prop) (l : list A) :
  (∀ x, x ∈ l → ∃ y, f x = Ok y ∧ P x y) →
  ∃ ys, rmapM f l = Ok ys ∧ Forall2 P l ys.
Proof.
  induction l as [|x l IH]; intros Hl; simpl.
  - exists []. split; [done | constructor].
  - destruct (Hl x) as (y & -> & Hy); [left |].
    destruct IH as (ys & -> & Hys).
    { intros x' Hx'. apply Hl. by right. }
    exists (y :: ys). split; [done | by constructor].
Qed.

Lemma rmapM_Raise (e : exn) (l : list A) :
  (∀ x, x ∈ l → f x = Raise e ∨ ∃ y, f x = Ok y) →
  (∃ x, x ∈ l ∧ f x = Raise e) →
  rmapM f l = Raise e.
Proof.
  induction l as [|x l IH]; intros Hall (x0 & Hin & Hx0).
  - by apply elem_of_nil in Hin.
  - simpl. destruct (Hall x) as [-> | (y & Hy)]; [left | done |].
    rewrite Hy. simpl. rewrite IH; [done | |].
    + intros x' Hx'. apply Hall. by right.
    + apply elem_of_cons in Hin as [-> | Hin]; [congruence | eauto].
Qed.
End rmapM.

(** ** The scores on the first scenario

    Reference Tcell = {CD3, CD4} and Bcell = {CD19, MS4A1}, one cluster
    with the genes CD3 and CD8. *)

Example scenario_1_overlap_count :
  _calc_overlap_count
    [("Tcell", {["CD3"; "CD4"]}); ("Bcell", {["CD19"; "MS4A1"]})]
    [("0", {["CD3"; "CD8"]})]
  = [[Finite 1]; [Finite 0]].
Proof. by vm_compute. Qed.

Example scenario_1_overlap_coef :
  _calc_overlap_coef
    [("Tcell", {["CD3"; "CD4"]}); ("Bcell", {["CD19"; "MS4A1"]})]
    [("0", {["CD3"; "CD8"]})]
  = Ok [[Finite (1 # 2)]; [Finite (0 # 2)]].
Proof. by vm_compute. Qed.

Example scenario_1_jaccard :
  _calc_jaccard
    [("Tcell", {["CD3"; "CD4"]}); ("Bcell", {["CD19"; "MS4A1"]})]
    [("0", {["CD3"; "CD8"]})]
  = Ok [[Finite (1 # 3)]; [Finite (0 # 4)]].
Proof. by vm_compute. Qed.

Example scenario_1_stored :
  marker_gene_overlap pbmc_reference "rank_genes_groups"
    (Some "overlap_count") (Some "reference") None None "marker_gene_overlap"
    pbmc_world
  = (World (<["marker_gene_overlap" :=
               Frame (MkDataFrame [[Finite 1]; [Finite 0]]
                        ["Tcell"; "Bcell"] ["0"])]> (uns pbmc_world))
       [LogHint (msg_added "marker_gene_overlap")],
     Ok tt).
Proof. by vm_compute. Qed.

(** ** Sizes of gene sets and exact quotients *)

Lemma Zpos_of_nat (b : nat) : (0 < b)%nat → Z.pos (Pos.of_nat b) = Z.of_nat b.
Proof.
  intros Hb. rewrite <- (Nat2Pos.id b) at 2 by lia.
  by rewrite positive_nat_Z.
Qed.

Lemma py_truediv_pos (a b : nat) :
  (0 < b)%nat → py_truediv a b = Ok (Finite (Z.of_nat a # Pos.of_nat b)).
Proof. destruct b; [lia | done]. Qed.

Lemma size_inter_le_l (D R : geneset) : (size (D ∩ R) ≤ size D)%nat.
Proof. apply subseteq_size. set_solver. Qed.

Lemma size_inter_le_r (D R : geneset) : (size (D ∩ R) ≤ size R)%nat.
Proof. apply subseteq_size. set_solver. Qed.

Lemma size_union_ge_l (D R : geneset) : (size D ≤ size (D ∪ R))%nat.
Proof. apply subseteq_size. set_solver. Qed.

Lemma size_union_ge_r (D R : geneset) : (size R ≤ size (D ∪ R))%nat.
Proof. apply subseteq_size. set_solver. Qed.

Lemma size_union_pos (D R : geneset) :
  ¬ (R = ∅ ∧ D = ∅) → (0 < size (D ∪ R))%nat.
Proof.
  intros Hne. destruct (decide (size (D ∪ R) = 0)) as [Hz|]; [| lia].
  apply size_empty_iff in Hz. exfalso. apply Hne.
  split; apply leibniz_equiv; set_solver.
Qed.

Lemma overlap_coef_cell_spec (R D : geneset) :
  ∃ x, overlap_coef_cell R D = Ok x ∧ overlap_coef_cell_ok R D x.
Proof.
  unfold overlap_coef_cell, overlap_coef_cell_ok.
  set (d := Nat.max (Nat.min (size D) (size R)) 1).
  assert (Hd : (0 < d)%nat) by (unfold d; lia).
  rewrite (py_truediv_pos _ _ Hd).
  eexists; split; [done |]. eexists; split; [done |].
  pose proof (size_inter_le_l D R) as Hl.
  pose proof (size_inter_le_r D R) as Hr.
  assert (Hc : R ∩ D = D ∩ R) by (apply leibniz_equiv; set_solver).
  repeat split.
  - unfold overlap_coefficient_spec. rewrite Hc.
    replace (Z.max _ 1) with (Z.of_nat d) by (unfold d; lia).
    rewrite (Qmake_Qdiv (Z.of_nat (size (D ∩ R))) (Pos.of_nat d)).
    by rewrite Zpos_of_nat.
  - unfold Qle; simpl. lia.
  - unfold Qle; simpl. rewrite Zpos_of_nat by done. unfold d. lia.
  - intros He. assert (size (D ∩ R) = 0) as ->.
    { apply size_empty_iff. destruct He as [-> | ->]; set_solver. }
    done.
Qed.


Lemma jaccard_cell_le_overlap_coef_cell (R D : geneset) :
  ¬ (R = ∅ ∧ D = ∅) →
  ∃ j c, jaccard_cell R D = Ok j ∧ overlap_coef_cell R D = Ok c
         ∧ float_le j c.
Proof.
  intros Hne. unfold jaccard_cell, overlap_coef_cell.
  pose proof (size_union_pos D R Hne) as Hu.
  set (d := Nat.max (Nat.min (size D) (size R)) 1).
  assert (Hd : (0 < d)%nat) by (unfold d; lia).
  rewrite (py_truediv_pos _ _ Hu), (py_truediv_pos _ _ Hd).
  do 2 eexists. split; [done |]. split; [done |].
  unfold float_le, Qle; simpl. rewrite !Zpos_of_nat by done.
  pose proof (size_union_ge_l D R). pose proof (size_union_ge_r D R).
  apply Z.mul_le_mono_nonneg_l; [lia |]. unfold d. lia.
Qed.

(** C8. When no reference group and data cluster are both empty,
    [_calc_jaccard] and [_calc_overlap_coef] both return a matrix, and each
    Jaccard index is at most the overlap coefficient of the same pair. *)
Theorem calc_jaccard_le_overlap_coef (markers1 markers2 : dict geneset) :
  (∀ g i, g ∈ markers1 → i ∈ markers2 → ¬ (g.2 = ∅ ∧ i.2 = ∅)) →
  ∃ mj mc, _calc_jaccard markers1 markers2 = Ok mj
           ∧ _calc_overlap_coef markers1 markers2 = Ok mc
           ∧ Forall2 (Forall2 float_le) mj mc.
Proof.
  unfold _calc_jaccard, _calc_overlap_coef.
  induction markers1 as [|g markers1 IH]; intros Hne; simpl.
  { exists [], []. repeat split; constructor. }
  destruct IH as (mj & mc & -> & -> & Hle).
  { intros g' i Hg'. apply Hne. by right. }
  assert (Hrow : ∃ rj rc,
             rmapM (λ i, jaccard_cell g.2 i.2) markers2 = Ok rj
             ∧ rmapM (λ i, overlap_coef_cell g.2 i.2) markers2 = Ok rc
             ∧ Forall2 float_le rj rc).
  { assert (Hg : ∀ i, i ∈ markers2 → ¬ (g.2 = ∅ ∧ i.2 = ∅)).
    { intros i Hi. apply Hne; [left | done]. }
    clear Hne Hle. induction markers2 as [|i markers2 IH2]; simpl.
    { exists [], []. repeat split; constructor. }
    destruct (jaccard_cell_le_overlap_coef_cell g.2 i.2)
      as (j & c & -> & -> & Hjc); [apply Hg; left |].
    destruct IH2 as (rj & rc & -> & -> & Hrr).
    { intros i' Hi'. apply Hg. by right. }
    exists (j :: rj), (c :: rc). repeat split; by constructor. }
  destruct Hrow as (rj & rc & -> & -> & Hrr).
  exists (rj :: mj), (rc :: mc). repeat split; by constructor.
Qed.

Lemma calc_jaccard_le_overlap_coef_witness :
  ∃ mj mc,
    _calc_jaccard [("Tcell", {["CD3"; "CD4"]}); ("Bcell", ∅)]
                  [("0", {["CD3"; "CD8"]})] = Ok mj
    ∧ _calc_overlap_coef [("Tcell", {["CD3"; "CD4"]}); ("Bcell", ∅)]
                         [("0", {["CD3"; "CD8"]})] = Ok mc
    ∧ Forall2 (Forall2 float_le) mj mc.
Proof.
  apply (calc_jaccard_le_overlap_coef
           [("Tcell", {["CD3"; "CD4"]}); ("Bcell", ∅)]
           [("0", {["CD3"; "CD8"]})]).
  intros g i Hg Hi [_ Hi0].
  apply list_elem_of_singleton in Hi as ->. simpl in Hi0.
  assert (H : "CD3" ∈ ({["CD3"; "CD8"]} : geneset)) by set_solver.
  rewrite Hi0 in H. set_solver.
Defined.

Lemma calc_jaccard_both_empty (markers1 markers2 : dict geneset) g i :
  g ∈ markers1 → i ∈ markers2 → g.2 = ∅ → i.2 = ∅ →
  _calc_jaccard markers1 markers2 = Raise ZeroDivisionError.
Proof.
  intros Hg Hi Hg0 Hi0.
  assert (Hcell : ∀ R D : geneset,
             jaccard_cell R D = Raise ZeroDivisionError
             ∨ ∃ y, jaccard_cell R D = Ok y).
  { intros R D. unfold jaccard_cell, py_truediv.
    destruct (size (D ∪ R)); eauto. }
  assert (Hrow : ∀ g' : string * geneset,
             rmapM (λ i', jaccard_cell g'.2 i'.2) markers2
             = Raise ZeroDivisionError
             ∨ ∃ y, rmapM (λ i', jaccard_cell g'.2 i'.2) markers2 = Ok y).
  { intros g'. clear Hi. induction markers2 as [|i' markers2 IH]; simpl.
    - right. by eexists.
    - destruct (Hcell g'.2 i'.2) as [-> | (y & ->)]; [by left |].
      destruct IH as [-> | (ys & ->)]; [by left | right; by eexists]. }
  apply rmapM_Raise; [auto |].
  exists g. split; [done |].
  apply rmapM_Raise; [auto |].
  exists i. split; [done |].
  rewrite Hg0, Hi0. unfold jaccard_cell.
  assert (size ((∅ : geneset) ∩ ∅) = 0) as -> by by apply size_empty_iff.
  assert (size ((∅ : geneset) ∪ ∅) = 0) as ->; [| done].
  apply size_empty_iff. set_solver.
Qed.

(** ** The run of [marker_gene_overlap] *)

Lemma test_user_inputs_run reference_markers key method normalize w :
  test_user_inputs reference_markers key method normalize w
  = (w, checked_inputs (uns w) reference_markers key method normalize).
Proof.
  unfold test_user_inputs, checked_inputs, mbind, M_bind, bind, get_uns,
    when, raise, mret, M_ret, ret.
  destruct (uns w !! key); [| done].
  destruct (negb (py_in method avail_methods)); [done |].
  destruct (negb (py_in _ avail_norm)); [done |].
  destruct (_ && _); [done |].
  by destruct (as_sets reference_markers).
Qed.

Lemma clamp_adj_pval_threshold_run top_n_markers adj_pval_threshold w :
  clamp_adj_pval_threshold top_n_markers adj_pval_threshold w
  = (World (uns w)
       (log w ++ threshold_warnings top_n_markers adj_pval_threshold),
     Ok (clamped_threshold adj_pval_threshold)).
Proof.
  destruct w as [u l].
  unfold clamp_adj_pval_threshold, threshold_warnings, clamped_threshold.
  destruct adj_pval_threshold as [t|]; simpl.
  2: { unfold mret, M_ret, ret. by rewrite app_nil_r. }
  unfold mbind, M_bind, bind, when, logg_warn, mret, M_ret, ret.
  assert (Hexcl : Qltb t 0 = true → Qltb 1 t = false).
  { unfold Qltb. rewrite negb_true_iff, negb_false_iff.
    intros H0. apply Qle_bool_iff.
    destruct (Qlt_le_dec t 1) as [Hlt | Hle]; [by apply Qlt_le_weak |].
    apply not_true_iff_false in H0. exfalso. apply H0, Qle_bool_iff.
    by apply Qle_trans with 1%Q. }
  destruct (Qltb t 0) eqn:H0; simpl.
  - rewrite Hexcl by done.
    destruct top_n_markers; case_bool_decide; try done; simpl;
      by rewrite <- ?app_assoc, ?app_nil_r.
  - destruct (Qltb 1 t); destruct top_n_markers; case_bool_decide;
      try done; simpl; by rewrite <- ?app_assoc, ?app_nil_r.
Qed.

Lemma clamp_top_n_markers_run top_n_markers w :
  clamp_top_n_markers top_n_markers w
  = (World (uns w) (log w ++ top_n_warnings top_n_markers),
     Ok (clamped_top_n top_n_markers)).
Proof.
  destruct w as [u l].
  unfold clamp_top_n_markers, top_n_warnings, clamped_top_n.
  destruct top_n_markers as [n|]; simpl.
  2: { unfold mret, M_ret, ret. by rewrite app_nil_r. }
  unfold mbind, M_bind, bind, logg_warn, mret, M_ret, ret.
  destruct (Z.ltb_spec n 1); simpl.
  - by replace (Z.max 1 n) with 1%Z by lia.
  - rewrite app_nil_r. by replace (Z.max 1 n) with n by lia.
Qed.

(** [marker_gene_overlap] as a function of the state: the checks leave the
    state alone; past them the warnings are logged, and [adata.uns] is
    written only once the data frame exists. *)
Lemma marker_gene_overlap_run reference_markers key method normalize
    top_n_markers adj_pval_threshold key_added w :
  marker_gene_overlap reference_markers key method normalize top_n_markers
    adj_pval_threshold key_added w
  = match checked_inputs (uns w) reference_markers key method normalize with
    | Raise e => (w, Raise e)
    | Ok (rgg, normalize', ref) =>
        let l := (log w
                  ++ threshold_warnings top_n_markers adj_pval_threshold
                  ++ top_n_warnings top_n_markers)%list in
        match overlap_frame rgg reference_markers method normalize' ref
                (clamped_top_n top_n_markers)
                (clamped_threshold adj_pval_threshold) with
        | Raise e => (World (uns w) l, Raise e)
        | Ok df =>
            (World (<[key_added := Frame df]> (uns w))
               (l ++ [LogHint (msg_added key_added)]),
             Ok tt)
        end
    end.
Proof.
  unfold marker_gene_overlap, mbind at 1, M_bind at 1, bind at 1.
  rewrite test_user_inputs_run.
  destruct (checked_inputs _ _ _ _ _) as [[[rgg normalize'] ref]|e];
    [| done].
  unfold mbind at 1, M_bind at 1, bind at 1.
  rewrite clamp_adj_pval_threshold_run.
  unfold mbind at 1, M_bind at 1, bind at 1.
  rewrite clamp_top_n_markers_run. cbn [uns log].
  rewrite <- app_assoc.
  unfold overlap_frame, mbind, M_bind, result_bind, bind, rbind, lift,
    raise, set_uns, logg_hint, mret, M_ret, ret.
  cbn [uns log].
  destruct (get_names rgg) as [names|e]; [| done].
  destruct (data_markers_loop _ _ _ _ _) as [data_markers|e]; [| done].
  destruct (find_overlaps _ _ _ _) as [[m|]|e]; done.
Qed.

(** ** Rounding to the nearest double *)

Lemma pow2_pos (e : Z) : (0 < pow2 e)%Q.
Proof. by apply Qpower_0_lt. Qed.

Lemma pow2_plus (a b : Z) : (pow2 (a + b) == pow2 a * pow2 b)%Q.
Proof. by apply Qpower_plus. Qed.

Lemma pow2_Z (e : Z) : (0 <= e)%Z → (pow2 e == inject_Z (2 ^ e))%Q.
Proof. intros He. unfold pow2. by rewrite Zpower_Qpower. Qed.

Lemma pow2_mono (a b : Z) : (a <= b)%Z → (pow2 a <= pow2 b)%Q.
Proof. intros Hab. by apply Qpower_le_compat_l. Qed.

Lemma round_half_even_error (x : Q) :
  (Qabs (inject_Z (round_half_even x) - x) <= 1 # 2)%Q.
Proof.
  destruct x as [n d]. unfold round_half_even. cbn [Qnum Qden].
  pose proof (Z.div_mod n (Z.pos d) ltac:(lia)) as Hdm.
  pose proof (Z.mod_pos_bound n (Z.pos d) ltac:(lia)) as Hr.
  set (f := (n / Z.pos d)%Z) in *. set (r := (n mod Z.pos d)%Z) in *.
  apply Qabs_Qle_condition.
  destruct (Z.compare_spec (2 * r) (Z.pos d)) as [He | Hl | Hg];
    [destruct (Z.even f) |..];
    unfold Qle, Qminus, Qplus, Qopp, inject_Z; cbn [Qnum Qden]; nia.
Qed.

Lemma round_half_even_Z (x : Q) (z : Z) :
  (x == inject_Z z)%Q → round_half_even x = z.
Proof.
  destruct x as [n d]. unfold Qeq, round_half_even. cbn [Qnum Qden inject_Z].
  intros Hx. assert (n = (z * Z.pos d)%Z) as -> by lia.
  rewrite Z.div_mul, Z.mod_mul by lia.
  by destruct (Z.compare_spec (2 * 0) (Z.pos d)); try lia.
Qed.

Lemma floor_log2_le (x : Q) : (0 < x)%Q → (pow2 (floor_log2 x) <= x)%Q.
Proof.
  intros Hx. unfold floor_log2.
  set (l := (Z.log2 (Qnum x) - Z.log2 (Z.pos (Qden x)))%Z).
  destruct (Qle_bool (pow2 l) x) eqn:Hl; [by apply Qle_bool_iff |].
  destruct x as [n d]. cbn [Qnum Qden] in *.
  assert (Hn : (0 < n)%Z) by (unfold Qlt in Hx; cbn in Hx; lia).
  pose proof (Z.log2_spec n Hn) as [Hn1 _].
  pose proof (Z.log2_spec (Z.pos d) ltac:(lia)) as [_ Hd2].
  pose proof (Z.log2_nonneg n). pose proof (Z.log2_nonneg (Z.pos d)).
  replace (l - 1)%Z
    with (Z.log2 n + - (Z.succ (Z.log2 (Z.pos d))))%Z by (unfold l; lia).
  rewrite pow2_plus. unfold pow2 at 2. rewrite Qpower_opp.
  fold (pow2 (Z.succ (Z.log2 (Z.pos d)))).
  rewrite !pow2_Z by lia.
  set (A := (2 ^ Z.log2 n)%Z) in *.
  set (B := (2 ^ Z.succ (Z.log2 (Z.pos d)))%Z) in *.
  assert (HB : (0 < B)%Z) by lia.
  destruct B as [|B|B]; try lia.
  unfold Qle, Qmult, Qinv, inject_Z. cbn [Qnum Qden]. nia.
Qed.

Lemma Qabs_pos_eq (x : Q) : (0 < x)%Q → Qabs x = x.
Proof.
  destruct x as [n d]. unfold Qlt. cbn. intros Hn.
  destruct n; try lia. done.
Qed.

Lemma pow2_1024_big : (inject_Z (2 ^ 54) < pow2 1024)%Q.
Proof. by vm_compute. Qed.

(** Rounding a positive number that is at least [2^-1022] and at most
    [2^53] gives a number, off by at most the fraction [2^-53] of it. *)
Lemma round64_reduced_error (x : Q) :
  (pow2 (-1022) <= x)%Q → (x <= inject_Z (2 ^ 53))%Q →
  ∃ y, round64_reduced x = Finite y
       ∧ (Qabs (y - x) <= pow2 (-53) * x)%Q.
Proof.
  intros Hlo Hhi.
  assert (Hx : (0 < x)%Q).
  { eapply Qlt_le_trans; [apply (pow2_pos (-1022)) | done]. }
  unfold round64_reduced.
  assert (Qis_zero x = false) as ->.
  { apply not_true_iff_false. intros H0%Qeq_bool_iff.
    rewrite H0 in Hx. by apply Qlt_irrefl in Hx. }
  rewrite (Qabs_pos_eq x Hx).
  set (e := Z.max (floor_log2 x - 52) (-1074)).
  set (m := round_half_even (x / pow2 e)).
  set (y := Qred (inject_Z m * pow2 e)).
  assert (He : (pow2 (e + 52) <= x)%Q).
  { destruct (Z.max_spec (floor_log2 x - 52) (-1074)) as [[_ Hm] | [_ Hm]];
      unfold e; rewrite Hm.
    - done.
    - replace (floor_log2 x - 52 + 52)%Z with (floor_log2 x) by lia.
      by apply floor_log2_le. }
  pose proof (pow2_pos e) as Hpe.
  assert (Hpe0 : ¬ (pow2 e == 0)%Q).
  { intros H0. rewrite H0 in Hpe. by apply Qlt_irrefl in Hpe. }
  assert (Herr : (Qabs (y - x) <= pow2 (-53) * x)%Q).
  { unfold y. rewrite Qred_correct.
    assert ((inject_Z m * pow2 e - x
             == (inject_Z m - x / pow2 e) * pow2 e)%Q) as ->
      by (field; done).
    rewrite Qabs_Qmult, (Qabs_pos (pow2 e)) by by apply Qlt_le_weak.
    apply Qle_trans with ((1 # 2) * pow2 e)%Q.
    - apply Qmult_le_compat_r; [apply round_half_even_error |].
      by apply Qlt_le_weak.
    - apply Qle_trans with (pow2 (-53) * pow2 (e + 52))%Q.
      + rewrite (pow2_plus e 52).
        assert ((pow2 (-53) * (pow2 e * pow2 52) == (1 # 2) * pow2 e)%Q)
          as ->; [| apply Qle_refl].
        assert ((pow2 (-53) * pow2 52 == 1 # 2)%Q) as H by by vm_compute.
        rewrite (Qmult_comm (pow2 e)), Qmult_assoc, H. done.
      + apply Qmult_le_l; [apply pow2_pos | done]. }
  exists y. split; [| done].
  assert (Qle_bool (pow2 1024) (Qabs y) = false) as ->; [| done].
  apply not_true_iff_false. intros Hov%Qle_bool_iff.
  apply (Qlt_irrefl (pow2 1024)).
  eapply Qle_lt_trans; [| apply pow2_1024_big].
  apply Qle_trans with (Qabs y); [done |].
  assert ((y == (y - x) + x)%Q) as Hy by ring.
  rewrite Hy at 1.
  eapply Qle_trans; [apply Qabs_triangle |].
  rewrite (Qabs_pos x) by by apply Qlt_le_weak.
  apply Qle_trans with (pow2 (-53) * x + x)%Q.
  { apply Qplus_le_l. done. }
  apply Qle_trans with (1 * x + x)%Q.
  { apply Qplus_le_l, Qmult_le_compat_r; [by vm_compute |].
    by apply Qlt_le_weak. }
  apply Qle_trans with (inject_Z (2 ^ 53) + inject_Z (2 ^ 53))%Q.
  { rewrite Qmult_1_l. by apply Qplus_le_compat. }
  by vm_compute.
Qed.

(** Rounding an integer from 0 to below [2^53] gives that integer. *)
Lemma round64_reduced_Z (x : Q) (z : Z) :
  (x == inject_Z z)%Q → (0 <= z < 2 ^ 53)%Z →
  ∃ y, round64_reduced x = Finite y ∧ (y == x)%Q.
Proof.
  intros Hxz Hz. unfold round64_reduced.
  destruct (Qis_zero x) eqn:H0.
  { apply Qeq_bool_iff in H0. exists 0%Q. by rewrite H0. }
  assert (Hzpos : (0 < z)%Z).
  { destruct (decide (z = 0%Z)) as [-> |]; [| lia].
    apply not_true_iff_false in H0. exfalso. by apply H0, Qeq_bool_iff. }
  assert (Hx : (0 < x)%Q).
  { rewrite Hxz. unfold Qlt, inject_Z. cbn. lia. }
  rewrite (Qabs_pos_eq x Hx).
  set (e := Z.max (floor_log2 x - 52) (-1074)).
  assert (He : (e <= 0)%Z).
  { unfold e. apply Z.max_lub; [| lia].
    destruct (Z.le_gt_cases (floor_log2 x) 52) as [| Hgt]; [lia |].
    exfalso. pose proof (floor_log2_le x Hx) as Hfl.
    assert (Hbig : (pow2 53 <= pow2 (floor_log2 x))%Q)
      by (apply pow2_mono; lia).
    rewrite (pow2_Z 53) in Hbig by lia.
    assert (Hx53 : (inject_Z (2 ^ 53) <= inject_Z z)%Q).
    { rewrite <- Hxz. by apply Qle_trans with (pow2 (floor_log2 x)). }
    rewrite <- Zle_Qle in Hx53. lia. }
  pose proof (pow2_pos e) as Hpe.
  assert (Hpe0 : ¬ (pow2 e == 0)%Q).
  { intros Hz0. rewrite Hz0 in Hpe. by apply Qlt_irrefl in Hpe. }
  assert (Hinv : (/ pow2 e == inject_Z (2 ^ (- e)))%Q).
  { rewrite <- (pow2_Z (- e)) by lia. unfold pow2. by rewrite Qpower_opp. }
  assert (Hm : round_half_even (x / pow2 e) = (z * 2 ^ (- e))%Z).
  { apply round_half_even_Z. unfold Qdiv.
    by rewrite Hinv, Hxz, inject_Z_mult. }
  rewrite Hm.
  set (y := Qred (inject_Z (z * 2 ^ (- e)) * pow2 e)).
  assert (Hy : (y == x)%Q).
  { unfold y. rewrite Qred_correct, inject_Z_mult, <- Hinv, Hxz.
    field. done. }
  exists y. split; [| done].
  assert (Qle_bool (pow2 1024) (Qabs y) = false) as ->; [| done].
  apply not_true_iff_false. intros Hov%Qle_bool_iff.
  apply (Qlt_irrefl (pow2 1024)).
  eapply Qle_lt_trans; [| apply pow2_1024_big].
  apply Qle_trans with (Qabs y); [done |].
  rewrite Hy, (Qabs_pos x) by by apply Qlt_le_weak.
  rewrite Hxz, <- Zle_Qle. lia.
Qed.

Lemma round64_proper (x x' : Q) : (x == x')%Q → round64 x = round64 x'.
Proof. intros H. unfold round64. by rewrite (Qred_complete _ _ H). Qed.

Lemma round64_error (x : Q) :
  (pow2 (-1022) <= x)%Q → (x <= inject_Z (2 ^ 53))%Q →
  ∃ y, round64 x = Finite y ∧ (Qabs (y - x) <= pow2 (-53) * x)%Q.
Proof.
  intros Hlo Hhi.
  destruct (round64_reduced_error (Qred x)) as (y & Hy & Herr).
  - by rewrite Qred_correct.
  - by rewrite Qred_correct.
  - exists y. split; [done |]. by rewrite Qred_correct in Herr.
Qed.

Lemma round64_Z (x : Q) (z : Z) :
  (x == inject_Z z)%Q → (0 <= z < 2 ^ 53)%Z →
  ∃ y, round64 x = Finite y ∧ (y == x)%Q.
Proof.
  intros Hxz Hz.
  destruct (round64_reduced_Z (Qred x) z) as (y & Hy & Heq); [| done |].
  - by rewrite Qred_correct.
  - exists y. split; [done |]. by rewrite Qred_correct in Heq.
Qed.

Lemma round64_zero (x : Q) : (x == 0)%Q → round64 x = Finite 0.
Proof.
  intros Hx. unfold round64, round64_reduced.
  assert (Qis_zero (Qred x) = true) as ->; [| done].
  apply Qeq_bool_iff. by rewrite Qred_correct.
Qed.

(** ** Normalisation by reference row *)

Lemma count_Q_zero (n : nat) : (count_Q n == 0)%Q ↔ n = 0%nat.
Proof.
  unfold count_Q, Qeq; simpl. lia.
Qed.

Lemma sum_list_zero (ns : list nat) :
  sum_list ns = 0%nat ↔ Forall (λ n, n = 0%nat) ns.
Proof.
  induction ns as [|n ns IH]; simpl.
  - split; [constructor | done].
  - rewrite Forall_cons, <- IH. lia.
Qed.

Lemma exact_sum_counts (ns : list nat) :
  (exact_sum (of_count <$> ns) == count_Q (sum_list ns))%Q.
Proof.
  induction ns as [|n ns IH]; [done |].
  cbn [fmap list_fmap exact_sum foldr of_count sum_list].
  fold (exact_sum (of_count <$> ns)). rewrite IH. unfold count_Q.
  by rewrite Nat2Z.inj_add, inject_Z_plus.
Qed.

Lemma np_sum_counts (ns : list nat) :
  (Z.of_nat (sum_list ns) < 2 ^ 53)%Z →
  ∃ s, np_sum (of_count <$> ns) = Finite s
       ∧ (s == count_Q (sum_list ns))%Q.
Proof.
  unfold np_sum. intros Hb.
  assert (Hgen : ∀ (a : Q) (k : nat),
    (a == count_Q k)%Q → (Z.of_nat (k + sum_list ns) < 2 ^ 53)%Z →
    ∃ s, foldl np_add (Finite a) (of_count <$> ns) = Finite s
         ∧ (s == count_Q (k + sum_list ns))%Q).
  { clear Hb. induction ns as [|n ns IH]; intros a k Ha Hk.
    - exists a. split; [done |]. cbn. by rewrite Nat.add_0_r.
    - cbn [fmap list_fmap foldl sum_list sum_list_with] in *.
      unfold id in *. fold (sum_list ns) in *. fold (of_count <$> ns).
      assert (Hak : (a + inject_Z (Z.of_nat n) == count_Q (k + n))%Q).
      { rewrite Ha. unfold count_Q.
        by rewrite Nat2Z.inj_add, inject_Z_plus. }
      destruct (round64_Z (a + inject_Z (Z.of_nat n)) (Z.of_nat (k + n)))
        as (y & Hy & Hyeq); [done | lia |].
      cbn [np_add of_count]. rewrite Hy.
      destruct (IH y (k + n)%nat) as (s & Hs & Hseq).
      + by rewrite Hyeq.
      + lia.
      + exists s. split; [done |]. rewrite Hseq.
        by rewrite Nat.add_assoc. }
  destruct (Hgen 0%Q 0%nat) as (s & Hs & Hseq); [done | done |].
  by exists s.
Qed.

Lemma exact_sum_error (row row' : list float64) (S u : Q) :
  ¬ (S == 0)%Q →
  Forall2 (λ x x', ∃ c q, x = Finite c ∧ x' = Finite q
                          ∧ (Qabs (q - c / S) <= u * (c / S))%Q)
    row row' →
  (Qabs (exact_sum row' - exact_sum row / S)
   <= u * (exact_sum row / S))%Q.
Proof.
  intros HS Hrows.
  induction Hrows as [|x x' row row' (c & q & -> & -> & Hq) _ IH].
  - cbn. assert ((0 - 0 / S == 0)%Q) as -> by (field; done).
    assert ((u * (0 / S) == 0)%Q) as -> by (field; done). done.
  - cbn [exact_sum foldr]. fold (exact_sum row) (exact_sum row').
    assert ((q + exact_sum row' - (c + exact_sum row) / S
             == (q - c / S) + (exact_sum row' - exact_sum row / S))%Q)
      as -> by (field; done).
    assert ((u * ((c + exact_sum row) / S)
             == u * (c / S) + u * (exact_sum row / S))%Q)
      as -> by (field; done).
    eapply Qle_trans; [apply Qabs_triangle |].
    by apply Qplus_le_compat.
Qed.

Lemma count_Q_nonneg (n : nat) : (0 <= count_Q n)%Q.
Proof. unfold count_Q, Qle. cbn. lia. Qed.

Lemma count_Q_le (n k : nat) : (n ≤ k)%nat → (count_Q n <= count_Q k)%Q.
Proof. intros H. unfold count_Q. rewrite <- Zle_Qle. lia. Qed.

Lemma sum_list_cons (n : nat) (ns : list nat) :
  sum_list (n :: ns) = (n + sum_list ns)%nat.
Proof. done. Qed.

Lemma elem_sum_list_le (n : nat) (ns : list nat) :
  n ∈ ns → (n ≤ sum_list ns)%nat.
Proof.
  induction ns as [|k ns IH]; intros Hn; [by apply elem_of_nil in Hn |].
  rewrite sum_list_cons. apply elem_of_cons in Hn as [-> | Hn]; [lia |].
  specialize (IH Hn). lia.
Qed.

(** One count over the row sum, as [np_divide] and [nan_to_num] give it. *)
Lemma normalized_entry (n total : nat) (s : Q) :
  (s == count_Q total)%Q → (n ≤ total)%nat → (0 < total)%nat →
  (Z.of_nat total < 2 ^ 53)%Z →
  ∃ q, nan_to_num1 (np_divide (of_count n) (Finite s)) = Finite q
       ∧ (Qabs (q - count_Q n / count_Q total)
          <= pow2 (-53) * (count_Q n / count_Q total))%Q.
Proof.
  intros Hs Hn Htotal Hb. cbn [np_divide of_count]. fold (count_Q n).
  assert (HT : (0 < count_Q total)%Q).
  { unfold count_Q, Qlt. cbn. lia. }
  assert (HT0 : ¬ (count_Q total == 0)%Q).
  { intros H0. rewrite H0 in HT. by apply Qlt_irrefl in HT. }
  assert (Qis_zero s = false) as ->.
  { apply not_true_iff_false. intros H0%Qeq_bool_iff.
    apply HT0. by rewrite <- Hs. }
  rewrite (round64_proper (count_Q n / s) (count_Q n / count_Q total))
    by by rewrite Hs.
  destruct (decide (n = 0%nat)) as [-> | Hn0].
  - rewrite round64_zero by (unfold Qdiv; by rewrite Qmult_0_l).
    exists 0%Q. split; [done |].
    assert ((count_Q 0 / count_Q total == 0)%Q) as ->
      by (unfold Qdiv; by rewrite Qmult_0_l).
    by vm_compute.
  - assert (Hlow : (pow2 (-1022) <= count_Q n / count_Q total)%Q).
    { apply Qle_shift_div_l; [done |].
      apply Qle_trans with (pow2 (-1022) * inject_Z (2 ^ 53))%Q.
      - apply Qmult_le_l; [apply pow2_pos |].
        unfold count_Q. rewrite <- Zle_Qle. lia.
      - apply Qle_trans with 1%Q; [by vm_compute |].
        unfold count_Q. change 1%Q with (inject_Z 1).
        rewrite <- Zle_Qle. lia. }
    assert (Hhigh : (count_Q n / count_Q total <= inject_Z (2 ^ 53))%Q).
    { apply Qle_shift_div_r; [done |].
      apply Qle_trans with (count_Q total); [by apply count_Q_le |].
      rewrite <- (Qmult_1_l (count_Q total)) at 1.
      apply Qmult_le_compat_r; [by vm_compute | by apply Qlt_le_weak]. }
    destruct (round64_error _ Hlow Hhigh) as (q & -> & Hq).
    by exists q.
Qed.

Lemma normalized_row_counts_rounded (ns : list nat) :
  (Z.of_nat (sum_list ns) < 2 ^ 53)%Z →
  row_normalized_rounded (of_count <$> ns) (normalized_row (of_count <$> ns)).
Proof.
  intros Hb. unfold row_normalized_rounded, normalized_row.
  destruct (np_sum_counts ns Hb) as (s & -> & Hs).
  pose proof (exact_sum_counts ns) as HS.
  destruct (decide (sum_list ns = 0%nat)) as [Hz | Hnz].
  - split.
    + intros _. assert (Hq : Qis_zero s = true).
      { apply Qeq_bool_iff. rewrite Hs. by apply count_Q_zero. }
      apply sum_list_zero in Hz. clear Hb Hs HS.
      induction Hz as [|n ns -> _ IH]; cbn; constructor; [| done].
      by rewrite Hq.
    + intros Hex. exfalso. apply sum_list_zero in Hz.
      rewrite Exists_fmap in Hex.
      apply Exists_exists in Hex as (n & Hn & Hne).
      rewrite Forall_forall in Hz. apply Hne. cbn.
      apply count_Q_zero. by apply Hz.
  - assert (HT0 : ¬ (exact_sum (of_count <$> ns) == 0)%Q).
    { rewrite HS. intros H0. by apply count_Q_zero in H0. }
    split.
    + intros H0. cbn in H0. rewrite Hs in H0. by apply count_Q_zero in H0.
    + intros _.
      assert (Hrows :
        Forall2 (λ x x', ∃ c q,
                   x = Finite c ∧ x' = Finite q
                   ∧ (Qabs (q - c / exact_sum (of_count <$> ns))
                      <= pow2 (-53) * (c / exact_sum (of_count <$> ns)))%Q)
          (of_count <$> ns)
          (nan_to_num1 <$>
             ((λ x, np_divide x (Finite s)) <$> (of_count <$> ns)))).
      { rewrite <- !list_fmap_compose.
        apply Forall2_fmap, Forall_Forall2_diag, Forall_forall.
        intros n Hn. cbn [compose].
        assert (n ≤ sum_list ns)%nat as Hle.
        { by apply elem_sum_list_le. }
        destruct (normalized_entry n (sum_list ns) s Hs Hle ltac:(lia) Hb)
          as (q & Hq & Herr).
        exists (count_Q n), q. split; [done |]. split; [done |].
        by rewrite HS. }
      split; [done |].
      pose proof (exact_sum_error _ _ _ (pow2 (-53)) HT0 Hrows) as Herr.
      assert ((exact_sum (of_count <$> ns) / exact_sum (of_count <$> ns)
               == 1)%Q) as H1 by (field; done).
      rewrite H1, Qmult_1_r in Herr. done.
Qed.

Lemma nan_to_num_divide_rows (m : matrix) :
  nan_to_num (divide_by_column_vector m (sum_axis1 m)) = normalized_row <$> m.
Proof.
  unfold nan_to_num, divide_by_column_vector, sum_axis1.
  induction m as [|row m IH]; [done |]. simpl. f_equal. exact IH.
Qed.

Lemma sum_list_fmap_le {A} (f g : A → nat) (l : list A) :
  (∀ x, (f x ≤ g x)%nat) → (sum_list (f <$> l) ≤ sum_list (g <$> l))%nat.
Proof.
  intros Hfg. induction l as [|x l IH]; [done |].
  cbn [fmap list_fmap]. fold (f <$> l) (g <$> l).
  rewrite !sum_list_cons. specialize (Hfg x). lia.
Qed.

(** C4, as the code has it. With method 'overlap_count' and normalize
    'reference', for clusters of fewer than 2^53 genes in all, the matrix
    is computed without error, every entry of it is a finite number, and
    for each row of the count matrix: if its sum is zero the normalised
    row holds only zeros; if it has a non-zero entry, each entry of the
    normalised row is the count over the row sum rounded to a double, off
    by at most the fraction 2^-53 of that quotient, and the entries add up
    to 1 within 2^-53. *)
Theorem reference_normalization_rows_rounded
    (reference_markers data_markers : dict geneset) :
  (Z.of_nat (sum_list ((λ i : string * geneset, size i.2) <$> data_markers))
   < 2 ^ 53)%Z →
  ∃ m, find_overlaps (Some "overlap_count") (Some "reference")
         reference_markers data_markers = Ok (Some m)
       ∧ Forall2 row_normalized_rounded
           (_calc_overlap_count reference_markers data_markers) m
       ∧ Forall (Forall (λ x, ∃ q, x = Finite q)) m.
Proof.
  intros Hb.
  unfold find_overlaps. rewrite !bool_decide_eq_true_2 by done.
  eexists. split; [done |]. rewrite nan_to_num_divide_rows. split.
  - apply Forall2_fmap_r, Forall_Forall2_diag, Forall_forall.
    intros row Hrow. unfold _calc_overlap_count in Hrow.
    apply list_elem_of_fmap in Hrow as (g & -> & _).
    assert (Hcounts :
      (λ i : string * geneset, overlap_count_cell g.2 i.2) <$> data_markers
      = of_count <$> ((λ i : string * geneset, size (i.2 ∩ g.2))
                        <$> data_markers)).
    { by rewrite <- list_fmap_compose. }
    rewrite Hcounts. apply normalized_row_counts_rounded.
    pose proof (sum_list_fmap_le
                  (λ i : string * geneset, size (i.2 ∩ g.2))
                  (λ i : string * geneset, size i.2) data_markers
                  (λ i, size_inter_le_l i.2 g.2)).
    lia.
  - apply Forall_fmap, Forall_forall. intros row _. simpl.
    unfold normalized_row. apply Forall_fmap, Forall_forall.
    intros x _. simpl. destruct x; simpl; by eexists.
Qed.

Lemma reference_normalization_rows_rounded_witness :
  ∃ m, find_overlaps (Some "overlap_count") (Some "reference")
         six_reference six_clusters = Ok (Some m)
       ∧ Forall2 row_normalized_rounded
           (_calc_overlap_count six_reference six_clusters) m
       ∧ Forall (Forall (λ x, ∃ q, x = Finite q)) m.
Proof.
  apply (reference_normalization_rows_rounded six_reference six_clusters).
  by vm_compute.
Defined.

(** C4, as the claim has it, fails. A reference group of six genes and six
    clusters of one of these genes each give the row of counts
    1, 1, 1, 1, 1, 1; each entry of the normalised row is the double
    nearest to 1/6, and these six doubles do not sum to 1, neither added
    as doubles nor added exactly. *)
Lemma reference_normalization_rows_not_exact :
  ∃ row',
    find_overlaps (Some "overlap_count") (Some "reference")
      six_reference six_clusters = Ok (Some [row'])
    ∧ Exists (λ x, ¬ float_eq x 0)
        ((λ i : string * geneset, overlap_count_cell six_reference_genes i.2)
           <$> six_clusters)
    ∧ ¬ float_eq (np_sum row') 1
    ∧ ¬ (exact_sum row' == 1)%Q
    ∧ ¬ Forall2 row_normalized
          (_calc_overlap_count six_reference six_clusters) [row'].
Proof.
  eexists. split; [by vm_compute |].
  assert (Hex : Exists (λ x, ¬ float_eq x 0)
            ((λ i : string * geneset,
                overlap_count_cell six_reference_genes i.2)
               <$> six_clusters)).
  { apply Exists_cons_hd. by vm_compute. }
  assert (Hsum : ¬ float_eq
            (np_sum (normalized_row
                       ((λ i : string * geneset,
                           overlap_count_cell six_reference_genes i.2)
                          <$> six_clusters))) 1) by by vm_compute.
  split; [done |]. split; [by vm_compute |]. split; [by vm_compute |].
  intros Hrows. apply Forall2_cons_1 in Hrows as [[_ Hrow] _].
  apply Hsum. revert Hrow. vm_compute. intros Hrow. by apply Hrow.
Qed.

(** ** Checks of the arguments *)

Lemma checked_inputs_None_string u reference_markers key method :
  checked_inputs u reference_markers key method (Some "None")
  = checked_inputs u reference_markers key method None.
Proof. done. Qed.

(** C10. A call with normalize='None' behaves as the call with
    normalize=None: same outcome, same [adata.uns], same log; and the
    checks do not reject it for its normalize argument. *)
Theorem normalize_None_string reference_markers key method top_n_markers
    adj_pval_threshold key_added w :
  marker_gene_overlap reference_markers key method (Some "None")
    top_n_markers adj_pval_threshold key_added w
  = marker_gene_overlap reference_markers key method None
      top_n_markers adj_pval_threshold key_added w
  ∧ test_user_inputs reference_markers key method (Some "None") w
    ≠ (w, Raise (ValueError msg_normalize)).
Proof.
  split.
  - by rewrite !marker_gene_overlap_run, checked_inputs_None_string.
  - rewrite test_user_inputs_run. unfold checked_inputs.
    destruct (uns w !! key); [| done].
    destruct (negb (py_in method avail_methods)); [done |].
    simpl. by destruct (as_sets reference_markers).
Qed.

(** C3. A call with normalize 'reference' or 'data' and a method other
    than 'overlap_count' raises a ValueError in the checks of the
    arguments: the state, log included, is as before the call, so no
    warning was given, no marker set built and no matrix computed. When
    the key is present and the method is an available one, the message is
    the one about normalizing with 'overlap_count' only. *)
Theorem normalize_needs_overlap_count reference_markers key method normalize
    top_n_markers adj_pval_threshold key_added w :
  normalize = Some "reference" ∨ normalize = Some "data" →
  method ≠ Some "overlap_count" →
  ∃ msg,
    test_user_inputs reference_markers key method normalize w
    = (w, Raise (ValueError msg))
    ∧ marker_gene_overlap reference_markers key method normalize
        top_n_markers adj_pval_threshold key_added w
      = (w, Raise (ValueError msg))
    ∧ (is_Some (uns w !! key) → py_in method avail_methods = true →
       msg = msg_only_count).
Proof.
  intros Hnorm Hmethod.
  rewrite marker_gene_overlap_run, test_user_inputs_run.
  unfold checked_inputs.
  destruct (uns w !! key) as [rgg|].
  2: { eexists. split; [done |]. split; [done |]. by intros [? ?]. }
  destruct (py_in method avail_methods); simpl.
  2: { eexists. split; [done |]. split; [done |]. done. }
  assert (Hcheck :
    negb (py_in (if bool_decide (normalize = Some "None") then None
                 else normalize) avail_norm) = false
    ∧ bool_decide ((if bool_decide (normalize = Some "None") then None
                    else normalize) ≠ None) = true).
  { by destruct Hnorm as [-> | ->]. }
  destruct Hcheck as [-> ->]. simpl.
  rewrite bool_decide_eq_true_2 by done.
  eexists. split; [done |]. split; [done |]. done.
Qed.

Lemma normalize_needs_overlap_count_witness :
  marker_gene_overlap pbmc_reference "rank_genes_groups" (Some "jaccard")
    (Some "data") None (Some (-1)%Q) "marker_gene_overlap" pbmc_world
  = (pbmc_world, Raise (ValueError msg_only_count)).
Proof.
  destruct (normalize_needs_overlap_count pbmc_reference
              "rank_genes_groups" (Some "jaccard") (Some "data") None
              (Some (-1)%Q) "marker_gene_overlap" pbmc_world)
    as (msg & _ & Hrun & Hmsg); [by right | done |].
  rewrite Hrun, Hmsg; [done | by eexists | done].
Defined.

Lemma unsupported_method_rejected reference_markers key method normalize
    top_n_markers adj_pval_threshold key_added w :
  is_Some (uns w !! key) → method ∉ avail_methods →
  marker_gene_overlap reference_markers key method normalize top_n_markers
    adj_pval_threshold key_added w
  = (w, Raise (ValueError msg_method)).
Proof.
  intros [rgg Hkey] Hm. rewrite marker_gene_overlap_run.
  unfold checked_inputs, py_in. rewrite Hkey.
  by rewrite bool_decide_eq_false_2.
Qed.

(** C1. The method 'enrich' is not one of the three documented methods,
    yet it is an available one for the check of line 128: the call with
    it passes the checks and ends with an UnboundLocalError for
    [marker_match], not with a ValueError. *)
Theorem enrich_method_not_rejected :
  py_in (Some "enrich") avail_methods = true
  ∧ (∃ v, test_user_inputs pbmc_reference "rank_genes_groups"
            (Some "enrich") None pbmc_world = (pbmc_world, Ok v))
  ∧ marker_gene_overlap pbmc_reference "rank_genes_groups" (Some "enrich")
      None None None "marker_gene_overlap" pbmc_world
    = (pbmc_world, Raise (UnboundLocalError "marker_match")).
Proof.
  split; [done |]. split.
  - eexists. by vm_compute.
  - by vm_compute.
Qed.

(** C2. With the Jaccard index, a reference group without genes and a
    cluster whose selection is empty (here by a threshold of 0) give the
    quotient 0/0: [_calc_jaccard] raises ZeroDivisionError and
    [marker_gene_overlap] lets it through. *)
Theorem jaccard_empty_sets_raise :
  _calc_jaccard [("A", ∅)] [("0", ∅)] = Raise ZeroDivisionError
  ∧ marker_gene_overlap [("A", PySet ∅)] "rank_genes_groups"
      (Some "jaccard") None None (Some 0%Q) "marker_gene_overlap"
      pbmc_world
    = (pbmc_world, Raise ZeroDivisionError).
Proof. split; by vm_compute. Qed.

(** ** Selection of the markers *)

Lemma Qltb_lt (x y : Q) : Qltb x y = true ↔ (x < y)%Q.
Proof.
  unfold Qltb. rewrite negb_true_iff, <- not_true_iff_false, Qle_bool_iff.
  split; [apply Qnot_le_lt | apply Qlt_not_le].
Qed.

Lemma count_below_cons (p : Q) (col : list Q) (t : Q) :
  count_below (p :: col) t
  = ((if Qltb p t then 1 else 0) + count_below col t)%nat.
Proof. done. Qed.

Lemma count_below_filter (col : list Q) (t : Q) :
  count_below col t = length (filter (λ p, (p < t)%Q) col).
Proof.
  induction col as [|p col IH]; [done |].
  rewrite count_below_cons, filter_cons, IH.
  destruct (decide (p < t)%Q) as [Hlt | Hge].
  - by apply Qltb_lt in Hlt as ->.
  - by destruct (Qltb p t) eqn:Hb; [apply Qltb_lt in Hb |].
Qed.

Lemma count_below_none (col : list Q) (t : Q) :
  Forall (λ p, ¬ (p < t)%Q) col → count_below col t = 0%nat.
Proof.
  intros Hall. rewrite count_below_filter.
  induction Hall as [|p col Hp _ IH]; [done |].
  rewrite filter_cons. by destruct (decide (p < t)%Q).
Qed.

Lemma select_markers_top_n rgg n adj_pval_threshold group :
  select_markers rgg (Some n) adj_pval_threshold group
  = select_markers rgg (Some n) None group.
Proof. by destruct adj_pval_threshold. Qed.

Lemma data_markers_loop_top_n rgg n adj_pval_threshold cluster_ids
    (data_markers : dict geneset) :
  data_markers_loop rgg (Some n) adj_pval_threshold cluster_ids data_markers
  = data_markers_loop rgg (Some n) None cluster_ids data_markers.
Proof.
  revert data_markers.
  induction cluster_ids as [|group rest IH]; intros data_markers; [done |].
  cbn [data_markers_loop]. rewrite select_markers_top_n.
  destruct (select_markers rgg (Some n) None group) as [s|e]; [| done].
  apply IH.
Qed.

Lemma overlap_frame_top_n rgg reference_markers method normalize ref n
    adj_pval_threshold :
  overlap_frame rgg reference_markers method normalize ref (Some n)
    adj_pval_threshold
  = overlap_frame rgg reference_markers method normalize ref (Some n) None.
Proof.
  unfold overlap_frame. destruct (get_names rgg) as [names|e]; [| done].
  cbn. by rewrite data_markers_loop_top_n.
Qed.

(** ** Errors and the stored result *)

Lemma as_sets_None (reference_markers : dict pyobj) :
  as_sets reference_markers = None
  ↔ ∃ k l, (k, PyList l) ∈ reference_markers.
Proof.
  induction reference_markers as [|[k v] d IH]; simpl.
  - split; [done | intros (k & l & H); by apply elem_of_nil in H].
  - destruct v as [s|l]; simpl.
    + destruct (as_sets d) as [r|].
      * split; [done |]. intros (k' & l' & [H | H]%elem_of_cons); [done |].
        assert (Some r = None) as Hn by (apply IH; eauto). done.
      * split; [| done]. intros _.
        destruct IH as [IH _]. destruct (IH eq_refl) as (k' & l' & H).
        exists k', l'. by right.
    + split; [| done]. intros _. exists k, l. by left.
Qed.

Lemma checked_inputs_Raise u reference_markers key method normalize e :
  checked_inputs u reference_markers key method normalize = Raise e →
  ∃ msg, e = ValueError msg.
Proof.
  unfold checked_inputs. intros H.
  destruct (u !! key); [| by eexists; injection H].
  destruct (negb (py_in method avail_methods)); [by eexists; injection H |].
  destruct (negb (py_in _ avail_norm)); [by eexists; injection H |].
  destruct (_ && _); [by eexists; injection H |].
  destruct (as_sets reference_markers); [done | by eexists; injection H].
Qed.

Lemma checked_inputs_Ok u reference_markers key method normalize v :
  checked_inputs u reference_markers key method normalize = Ok v →
  ¬ invalid_inputs u reference_markers key method normalize.
Proof.
  unfold checked_inputs, py_in. intros H.
  destruct (u !! key) as [rgg|] eqn:Hkey; [| done].
  destruct (bool_decide (method ∈ avail_methods)) eqn:Hm; [| done].
  apply bool_decide_eq_true in Hm. simpl in H.
  destruct (bool_decide (_ ∈ avail_norm)) eqn:Hn; [| done].
  apply bool_decide_eq_true in Hn. simpl in H.
  destruct (_ && _) eqn:Hc; [done |].
  destruct (as_sets reference_markers) eqn:Hs; [| done].
  intros [? | [? | [Hbad | [[Hrd Hmc] | Hl]]]].
  - congruence.
  - done.
  - apply Hbad. case_bool_decide; [subst; set_solver | set_solver].
  - apply andb_false_iff in Hc as [Hc | Hc];
      apply bool_decide_eq_false in Hc; apply Hc; [| done].
    by destruct Hrd as [-> | ->].
  - apply as_sets_None in Hl. congruence.
Qed.

Lemma checked_inputs_invalid u reference_markers key method normalize :
  invalid_inputs u reference_markers key method normalize →
  ∃ msg, checked_inputs u reference_markers key method normalize
         = Raise (ValueError msg).
Proof.
  intros Hinv.
  destruct (checked_inputs u reference_markers key method normalize)
    as [v|e] eqn:Hc.
  - by apply checked_inputs_Ok in Hc.
  - apply checked_inputs_Raise in Hc as [msg ->]. by exists msg.
Qed.

(** C9. Arguments that a check rejects give a ValueError with the state,
    log included, as before the call: nothing after the checks has run.
    Whatever the arguments, a call that raises leaves [adata.uns] as it
    was, and a call that returns has stored a data frame under
    [key_added] and changed nothing else in [adata.uns]. *)
Theorem failure_leaves_uns_unchanged reference_markers key method normalize
    top_n_markers adj_pval_threshold key_added w :
  let run := marker_gene_overlap reference_markers key method normalize
               top_n_markers adj_pval_threshold key_added w in
  (invalid_inputs (uns w) reference_markers key method normalize →
   ∃ msg, run = (w, Raise (ValueError msg)))
  ∧ (∀ e, run.2 = Raise e → uns run.1 = uns w)
  ∧ (run.2 = Ok tt →
     ∃ df, uns run.1 = <[key_added := Frame df]> (uns w)).
Proof.
  cbv zeta. rewrite marker_gene_overlap_run. split.
  { intros [msg ->]%checked_inputs_invalid. by exists msg. }
  destruct (checked_inputs _ _ _ _ _) as [[[rgg normalize'] ref]|e0];
    [| by split].
  cbv zeta.
  destruct (overlap_frame _ _ _ _ _ _ _) as [df|e0]; cbn [fst snd uns].
  - split; [done |]. intros _. by exists df.
  - by split.
Qed.

Lemma failure_leaves_uns_unchanged_witness :
  (∃ msg,
     marker_gene_overlap [("Tcell", PyList ["CD3"; "CD3"])]
       "rank_genes_groups" (Some "overlap_count") None None
       (Some (-1)%Q) "marker_gene_overlap" pbmc_world
     = (pbmc_world, Raise (ValueError msg)))
  ∧ uns (marker_gene_overlap [("A", PySet ∅)] "rank_genes_groups"
           (Some "jaccard") None None (Some 0%Q) "marker_gene_overlap"
           pbmc_world).1
    = uns pbmc_world
  ∧ ∃ df, uns (marker_gene_overlap pbmc_reference "rank_genes_groups"
                 (Some "overlap_count") None None None
                 "marker_gene_overlap" pbmc_world).1
          = <["marker_gene_overlap" := Frame df]> (uns pbmc_world).
Proof.
  split; [| split].
  - apply (failure_leaves_uns_unchanged [("Tcell", PyList ["CD3"; "CD3"])]
             "rank_genes_groups" (Some "overlap_count") None None
             (Some (-1)%Q) "marker_gene_overlap" pbmc_world).
    do 4 right. exists "Tcell", ["CD3"; "CD3"]. by left.
  - apply (failure_leaves_uns_unchanged [("A", PySet ∅)]
             "rank_genes_groups" (Some "jaccard") None None (Some 0%Q)
             "marker_gene_overlap" pbmc_world) with ZeroDivisionError.
    by vm_compute.
  - apply (failure_leaves_uns_unchanged pbmc_reference "rank_genes_groups"
             (Some "overlap_count") None None None "marker_gene_overlap"
             pbmc_world).
    by vm_compute.
Defined.

(** * Further properties of the three scores *)

Section rmapM_inv.
Context {A B : Type} (f : A → result B).

Lemma rmapM_Ok_inv (l : list A) (ys : list B) :
  rmapM f l = Ok ys → Forall2 (λ x y, f x = Ok y) l ys.
Proof.
  revert ys. induction l as [|x l IH]; intros ys H; simpl in H.
  - injection H as <-. constructor.
  - destruct (f x) as [y|e] eqn:Hx; [| done]. simpl in H.
    destruct (rmapM f l) as [ys'|e]; [| done]. simpl in H.
    injection H as <-. constructor; [done | by apply IH].
Qed.

Lemma rmapM_Raise_inv (l : list A) (e : exn) :
  rmapM f l = Raise e → ∃ x, x ∈ l ∧ f x = Raise e.
Proof.
  induction l as [|x l IH]; intros H; simpl in H; [done |].
  destruct (f x) as [y|e'] eqn:Hx; simpl in H.
  - destruct (rmapM f l) as [ys'|e']; [done |]. simpl in H.
    injection H as ->. destruct IH as (x' & Hin & Hx'); [done |].
    exists x'. split; [by right | done].
  - injection H as ->. exists x. split; [left | done].
Qed.
End rmapM_inv.

Lemma entry_cells {A B : Type} (cell : A → B → result float64)
    (l1 : list A) (l2 : list B) (m : matrix) (i j : nat) :
  rmapM (λ g, rmapM (λ d, cell g d) l2) l1 = Ok m →
  entry m i j
  = g ← l1 !! i; d ← l2 !! j;
    match cell g d with Ok x => Some x | Raise _ => None end.
Proof.
  intros Hm%rmapM_Ok_inv. unfold entry.
  destruct (l1 !! i) as [g|] eqn:Hg; simpl.
  - destruct (Forall2_lookup_l _ _ _ _ _ Hm Hg) as (row & -> & Hrow).
    simpl. apply rmapM_Ok_inv in Hrow.
    destruct (l2 !! j) as [d|] eqn:Hd; simpl.
    + destruct (Forall2_lookup_l _ _ _ _ _ Hrow Hd) as (x & -> & ->). done.
    + apply lookup_ge_None. apply lookup_ge_None in Hd.
      by rewrite <- (Forall2_length _ _ _ Hrow).
  - assert (m !! i = None) as ->; [| done].
    apply lookup_ge_None. apply lookup_ge_None in Hg.
    by rewrite <- (Forall2_length _ _ _ Hm).
Qed.

Lemma inter_comm_L (R D : geneset) : R ∩ D = D ∩ R.
Proof. apply leibniz_equiv. set_solver. Qed.

Lemma union_comm_L (R D : geneset) : R ∪ D = D ∪ R.
Proof. apply leibniz_equiv. set_solver. Qed.

Lemma jaccard_cell_comm (R D : geneset) : jaccard_cell R D = jaccard_cell D R.
Proof. unfold jaccard_cell. by rewrite inter_comm_L, union_comm_L. Qed.

Lemma overlap_coef_cell_comm (R D : geneset) :
  overlap_coef_cell R D = overlap_coef_cell D R.
Proof.
  unfold overlap_coef_cell. by rewrite inter_comm_L, Nat.min_comm.
Qed.

Lemma jaccard_cell_cases (R D : geneset) :
  (R = ∅ ∧ D = ∅ ∧ jaccard_cell R D = Raise ZeroDivisionError)
  ∨ (¬ (R = ∅ ∧ D = ∅) ∧ ∃ x, jaccard_cell R D = Ok x).
Proof.
  unfold jaccard_cell, py_truediv.
  destruct (size (D ∪ R)) as [|n] eqn:Hu.
  - left. apply size_empty_iff in Hu.
    assert (R = ∅) as -> by (apply leibniz_equiv; set_solver).
    assert (D = ∅) as -> by (apply leibniz_equiv; set_solver). done.
  - right. split; [| by eexists]. intros [-> ->].
    assert (size ((∅ : geneset) ∪ ∅) = 0%nat) as Hz.
    { apply size_empty_iff. set_solver. }
    lia.
Qed.

Lemma size_inter_full (D R : geneset) :
  size (D ∩ R) = size D → D ⊆ R.
Proof.
  intros Hs. assert (D ∩ R ≡ D) as He.
  { apply set_subseteq_size_equiv; [set_solver | lia]. }
  set_solver.
Qed.



Lemma entry_fmap_cells {A B : Type} (cell : A → B → float64)
    (l1 : list A) (l2 : list B) (i j : nat) :
  entry ((λ g, (λ d, cell g d) <$> l2) <$> l1) i j
  = g ← l1 !! i; d ← l2 !! j; Some (cell g d).
Proof.
  unfold entry. rewrite list_lookup_fmap.
  destruct (l1 !! i) as [g|]; [| done]. simpl.
  rewrite list_lookup_fmap. by destruct (l2 !! j).
Qed.

Lemma rmapM_cells_Ok {A B : Type} (cell : A → B → result float64)
    (l1 : list A) (l2 : list B) (m : matrix) (g : A) (d : B) :
  rmapM (λ g, rmapM (λ d, cell g d) l2) l1 = Ok m →
  g ∈ l1 → d ∈ l2 → ∃ x, cell g d = Ok x.
Proof.
  intros Hm%rmapM_Ok_inv [i Hi]%list_elem_of_lookup [j Hj]%list_elem_of_lookup.
  destruct (Forall2_lookup_l _ _ _ _ _ Hm Hi) as (row & _ & Hrow).
  apply rmapM_Ok_inv in Hrow.
  destruct (Forall2_lookup_l _ _ _ _ _ Hrow Hj) as (x & _ & Hx). eauto.
Qed.

Lemma calc_jaccard_Raise_inv (markers1 markers2 : dict geneset) (e : exn) :
  _calc_jaccard markers1 markers2 = Raise e →
  e = ZeroDivisionError ∧ both_empty markers1 markers2.
Proof.
  unfold _calc_jaccard.
  intros (g & Hg & (i & Hi & Hcell)%rmapM_Raise_inv)%rmapM_Raise_inv.
  destruct (jaccard_cell_cases g.2 i.2) as [(Hg0 & Hi0 & Hr) | (_ & x & Hx)];
    [| congruence].
  split; [congruence |]. by exists g, i.
Qed.

Lemma calc_jaccard_Ok_inv (markers1 markers2 : dict geneset) (m : matrix) :
  _calc_jaccard markers1 markers2 = Ok m → ¬ both_empty markers1 markers2.
Proof.
  intros Hm (g & i & Hg & Hi & Hg0 & Hi0).
  destruct (rmapM_cells_Ok (λ g i : string * geneset, jaccard_cell g.2 i.2)
              _ _ _ g i Hm Hg Hi) as [x Hx]. simpl in Hx.
  destruct (jaccard_cell_cases g.2 i.2) as [(_ & _ & Hr) | (Hne & _)];
    [congruence | by apply Hne].
Qed.

(** X1. Each entry of the overlap count matrix is the number of genes that
    the reference group and the cluster share: at most the size of either
    set, and 0 exactly when the two sets are disjoint. The matrix has one
    row per reference group and one entry per cluster in each row. *)
Theorem calc_overlap_count_entries (markers1 markers2 : dict geneset) :
  Forall2 (λ g row,
      Forall2 (λ i x, ∃ n : nat,
                  x = of_count n ∧ n = size (g.2 ∩ i.2)
                  ∧ (n ≤ size g.2)%nat ∧ (n ≤ size i.2)%nat
                  ∧ (n = 0%nat ↔ g.2 ## i.2))
        markers2 row)
    markers1 (_calc_overlap_count markers1 markers2).
Proof.
  unfold _calc_overlap_count.
  apply Forall2_fmap_r, Forall_Forall2_diag, Forall_forall. intros g _.
  apply Forall2_fmap_r, Forall_Forall2_diag, Forall_forall. intros i _.
  exists (size (i.2 ∩ g.2)). split; [done |].
  split; [by rewrite inter_comm_L |].
  split; [apply size_inter_le_r |]. split; [apply size_inter_le_l |].
  rewrite size_empty_iff. set_solver.
Qed.


(** X3. An overlap coefficient is 1 exactly when the reference group and
    the cluster both have genes and one of the two sets is included in the
    other, and 0 exactly when the two sets are disjoint. *)
Theorem calc_overlap_coef_inclusion (markers1 markers2 : dict geneset) :
  ∃ m, _calc_overlap_coef markers1 markers2 = Ok m
       ∧ Forall2 (λ g row,
             Forall2 (λ i x, ∃ q,
                 x = Finite q
                 ∧ ((q == 1)%Q
                    ↔ g.2 ≠ ∅ ∧ i.2 ≠ ∅ ∧ (g.2 ⊆ i.2 ∨ i.2 ⊆ g.2))
                 ∧ ((q == 0)%Q ↔ g.2 ## i.2))
               markers2 row)
           markers1 m.
Proof.
  unfold _calc_overlap_coef.
  apply rmapM_Ok. intros g _. apply rmapM_Ok. intros i _.
  generalize g.2 i.2. clear. intros R D.
  unfold overlap_coef_cell.
  set (d := Nat.max (Nat.min (size D) (size R)) 1).
  assert (Hd : (0 < d)%nat) by (unfold d; lia).
  rewrite (py_truediv_pos _ _ Hd).
  eexists; split; [done |]. eexists; split; [done |].
  pose proof (size_inter_le_l D R) as Hl.
  pose proof (size_inter_le_r D R) as Hr.
  assert (HR : R ≠ ∅ ↔ size R ≠ 0%nat).
  { rewrite size_empty_iff. split; intros H1 H2; apply H1;
      [by apply leibniz_equiv | by rewrite H2]. }
  assert (HD : D ≠ ∅ ↔ size D ≠ 0%nat).
  { rewrite size_empty_iff. split; intros H1 H2; apply H1;
      [by apply leibniz_equiv | by rewrite H2]. }
  split.
  - unfold Qeq; simpl. rewrite Zpos_of_nat by done. rewrite HR, HD. split.
    + intros Heq.
      assert (size (D ∩ R) = d) as Hs by lia. unfold d in Hs.
      split; [lia |]. split; [lia |].
      destruct (Nat.le_ge_cases (size D) (size R)).
      * right. apply size_inter_full. lia.
      * left. apply size_inter_full. rewrite inter_comm_L. lia.
    + intros (HRn & HDn & [Hsub | Hsub]).
      * assert (D ∩ R = R) as Heq by (apply leibniz_equiv; set_solver).
        pose proof (subseteq_size _ _ Hsub). rewrite Heq. unfold d. lia.
      * assert (D ∩ R = D) as Heq by (apply leibniz_equiv; set_solver).
        pose proof (subseteq_size _ _ Hsub). rewrite Heq. unfold d. lia.
  - unfold Qeq; simpl. split.
    + intros Heq. assert (size (D ∩ R) = 0%nat) as Hz by lia.
      apply size_empty_iff in Hz. set_solver.
    + intros Hdisj. assert (size (D ∩ R) = 0%nat) as ->; [| lia].
      apply size_empty_iff. set_solver.
Qed.

(** X4. The three scores are symmetric: with the two dicts swapped each
    function gives the transposed matrix. The overlap coefficient is
    always computed, and the Jaccard index is computed for one order
    exactly when it is for the other; otherwise both raise
    ZeroDivisionError. *)
Theorem scores_swapped_transpose (markers1 markers2 : dict geneset) :
  (∀ i j, entry (_calc_overlap_count markers1 markers2) i j
          = entry (_calc_overlap_count markers2 markers1) j i)
  ∧ (∃ a b, _calc_overlap_coef markers1 markers2 = Ok a
            ∧ _calc_overlap_coef markers2 markers1 = Ok b
            ∧ ∀ i j, entry a i j = entry b j i)
  ∧ match _calc_jaccard markers1 markers2,
          _calc_jaccard markers2 markers1 with
    | Ok a, Ok b => ∀ i j, entry a i j = entry b j i
    | Raise e1, Raise e2 => e1 = ZeroDivisionError ∧ e2 = ZeroDivisionError
    | _, _ => False
    end.
Proof.
  split; [| split].
  - intros i j. unfold _calc_overlap_count.
    rewrite (entry_fmap_cells
               (λ g i : string * geneset, overlap_count_cell g.2 i.2)),
            (entry_fmap_cells
               (λ g i : string * geneset, overlap_count_cell g.2 i.2)).
    destruct (markers1 !! i) as [g|], (markers2 !! j) as [d|]; simpl;
      try done.
    unfold overlap_count_cell. by rewrite inter_comm_L.
  - assert (Hok : ∀ l1 l2 : dict geneset,
               ∃ m, _calc_overlap_coef l1 l2 = Ok m).
    { intros l1 l2.
      destruct (rmapM_Ok
        (λ g : string * geneset,
           rmapM (λ i : string * geneset, overlap_coef_cell g.2 i.2) l2)
        (λ _ _, True) l1) as (m & Hm & _); [| by exists m].
      intros g _.
      destruct (rmapM_Ok
        (λ i : string * geneset, overlap_coef_cell g.2 i.2)
        (λ _ _, True) l2) as (row & Hrow & _); [| by exists row].
      intros i _. destruct (overlap_coef_cell_spec g.2 i.2) as (x & Hx & _).
      by exists x. }
    destruct (Hok markers1 markers2) as [a Ha].
    destruct (Hok markers2 markers1) as [b Hb].
    exists a, b. split; [done |]. split; [done |]. intros i j.
    rewrite (entry_cells
               (λ g i : string * geneset, overlap_coef_cell g.2 i.2)
               _ _ _ _ _ Ha),
            (entry_cells
               (λ g i : string * geneset, overlap_coef_cell g.2 i.2)
               _ _ _ _ _ Hb).
    destruct (markers1 !! i) as [g|], (markers2 !! j) as [d|]; simpl;
      try done.
    by rewrite overlap_coef_cell_comm.
  - assert (Hsym : ∀ l1 l2, both_empty l1 l2 → both_empty l2 l1).
    { intros l1 l2 (g & i & ? & ? & ? & ?). by exists i, g. }
    destruct (_calc_jaccard markers1 markers2) as [a|e1] eqn:Ha,
             (_calc_jaccard markers2 markers1) as [b|e2] eqn:Hb.
    + intros i j.
      rewrite (entry_cells
                 (λ g i : string * geneset, jaccard_cell g.2 i.2)
                 _ _ _ _ _ Ha),
              (entry_cells
                 (λ g i : string * geneset, jaccard_cell g.2 i.2)
                 _ _ _ _ _ Hb).
      destruct (markers1 !! i) as [g|], (markers2 !! j) as [d|]; simpl;
        try done.
      by rewrite jaccard_cell_comm.
    + apply calc_jaccard_Raise_inv in Hb as [_ Hb].
      by apply (calc_jaccard_Ok_inv _ _ _ Ha), Hsym.
    + apply calc_jaccard_Raise_inv in Ha as [_ Ha].
      by apply (calc_jaccard_Ok_inv _ _ _ Hb), Hsym.
    + apply calc_jaccard_Raise_inv in Ha as [-> _].
      by apply calc_jaccard_Raise_inv in Hb as [-> _].
Qed.

(** * Normalisation by data column *)

Lemma zip_with_fmap_same {A B C D : Type} (f : B → C → D) (g : A → B)
    (h : A → C) (l : list A) :
  zip_with f (g <$> l) (h <$> l) = (λ x, f (g x) (h x)) <$> l.
Proof. induction l as [|x l IH]; csimpl; [done | by rewrite IH]. Qed.

Lemma replicate_length_fmap {A B : Type} (c : B) (l : list A) :
  replicate (length l) c = (λ _, c) <$> l.
Proof. induction l as [|x l IH]; csimpl; [done | by rewrite IH]. Qed.

Lemma foldl_zip_with_cells {A B : Type} (cell : A → B → float64)
    (l1 : list A) (l2 : list B) (acc : B → float64) :
  foldl (zip_with np_add) (acc <$> l2) ((λ g, cell g <$> l2) <$> l1)
  = (λ d, foldl np_add (acc d) ((λ g, cell g d) <$> l1)) <$> l2.
Proof.
  revert acc. induction l1 as [|g l1 IH]; intros acc; csimpl; [done |].
  rewrite zip_with_fmap_same. apply (IH (λ d, np_add (acc d) (cell g d))).
Qed.

Lemma column_cells {A B : Type} (cell : A → B → float64)
    (l1 : list A) (l2 : list B) (j : nat) (d : B) :
  l2 !! j = Some d →
  column j ((λ g, cell g <$> l2) <$> l1) = (λ g, cell g d) <$> l1.
Proof.
  intros Hd. unfold column. induction l1 as [|g l1 IH]; [done |].
  cbn. rewrite list_lookup_fmap, Hd. cbn. f_equal. exact IH.
Qed.

(** X5. With method 'overlap_count' and normalize 'data', for reference
    groups of fewer than 2^53 genes in all, the matrix is computed without
    error and keeps its shape, and for each column of the count matrix: if
    its sum is zero the normalised column holds only zeros; if it has a
    non-zero entry, each entry of the normalised column is the count over
    the column sum rounded to a double, off by at most the fraction 2^-53
    of that quotient, and the entries add up to 1 within 2^-53. *)
Theorem data_normalization_columns
    (reference_markers data_markers : dict geneset) :
  (Z.of_nat (sum_list ((λ g : string * geneset, size g.2)
                         <$> reference_markers)) < 2 ^ 53)%Z →
  ∃ m, find_overlaps (Some "overlap_count") (Some "data")
         reference_markers data_markers = Ok (Some m)
       ∧ length m = length reference_markers
       ∧ Forall (λ row, length row = length data_markers) m
       ∧ ∀ j, (j < length data_markers)%nat →
           length (column j m) = length reference_markers
           ∧ row_normalized_rounded
               (column j (_calc_overlap_count reference_markers
                            data_markers))
               (column j m).
Proof.
  intros Hb. unfold find_overlaps.
  rewrite bool_decide_eq_true_2 by done.
  rewrite bool_decide_eq_false_2 by done.
  rewrite bool_decide_eq_true_2 by done.
  eexists. split; [done |].
  set (cell := λ g i : string * geneset, overlap_count_cell g.2 i.2).
  set (colsum := λ i : string * geneset,
         np_sum ((λ g, cell g i) <$> reference_markers)).
  assert (Hsum : sum_axis0 (length data_markers)
                   (_calc_overlap_count reference_markers data_markers)
                 = colsum <$> data_markers).
  { unfold sum_axis0, _calc_overlap_count.
    rewrite (replicate_length_fmap (Finite 0) data_markers).
    apply (foldl_zip_with_cells cell reference_markers data_markers
             (λ _, Finite 0)). }
  assert (Hm : nan_to_num
                 (divide_by_row_vector
                    (_calc_overlap_count reference_markers data_markers)
                    (sum_axis0 (length data_markers)
                       (_calc_overlap_count reference_markers
                          data_markers)))
               = (λ g, (λ i, nan_to_num1 (np_divide (cell g i) (colsum i)))
                         <$> data_markers) <$> reference_markers).
  { rewrite Hsum. unfold nan_to_num, divide_by_row_vector,
      _calc_overlap_count.
    rewrite <- !list_fmap_compose. apply list_fmap_ext. intros _ g _. simpl.
    rewrite (zip_with_fmap_same np_divide
               (λ i : string * geneset, overlap_count_cell g.2 i.2)
               colsum data_markers).
    by rewrite <- list_fmap_compose. }
  rewrite Hm. split; [by rewrite length_fmap |]. split.
  { apply Forall_fmap, Forall_forall. intros g _. simpl.
    by rewrite length_fmap. }
  intros j Hj. destruct (lookup_lt_is_Some_2 _ _ Hj) as [i Hi].
  pose proof (column_cells
                (λ g i, nan_to_num1 (np_divide (cell g i) (colsum i)))
                reference_markers data_markers j i Hi) as Hcol'.
  pose proof (column_cells cell reference_markers data_markers j i Hi)
    as Hcol.
  cbv beta in Hcol'.
  change (_calc_overlap_count reference_markers data_markers)
    with ((λ g, cell g <$> data_markers) <$> reference_markers).
  rewrite Hcol, Hcol'.
  split; [by rewrite length_fmap |].
  assert (Hcounts :
    (λ g, cell g i) <$> reference_markers
    = of_count <$> ((λ g : string * geneset, size (i.2 ∩ g.2))
                      <$> reference_markers)).
  { by rewrite <- list_fmap_compose. }
  assert (Hnorm :
    (λ g, nan_to_num1 (np_divide (cell g i) (colsum i))) <$> reference_markers
    = normalized_row ((λ g, cell g i) <$> reference_markers)).
  { unfold normalized_row, colsum. by rewrite <- !list_fmap_compose. }
  rewrite Hnorm, Hcounts. apply normalized_row_counts_rounded.
  pose proof (sum_list_fmap_le
                (λ g : string * geneset, size (i.2 ∩ g.2))
                (λ g : string * geneset, size g.2) reference_markers
                (λ g, size_inter_le_r i.2 g.2)).
  lia.
Qed.

Lemma data_normalization_columns_witness :
  ∃ m, find_overlaps (Some "overlap_count") (Some "data")
         six_clusters six_reference = Ok (Some m)
       ∧ length m = length six_clusters
       ∧ Forall (λ row, length row = length six_reference) m
       ∧ ∀ j, (j < length six_reference)%nat →
           length (column j m) = length six_clusters
           ∧ row_normalized_rounded
               (column j (_calc_overlap_count six_clusters six_reference))
               (column j m).
Proof.
  apply (data_normalization_columns six_clusters six_reference).
  by vm_compute.
Defined.

(** * Further properties of the selection of the markers *)

Lemma size_list_to_set_le (l : list string) :
  (size (list_to_set l : geneset) ≤ length l)%nat.
Proof.
  induction l as [|x l IH].
  - change (size (∅ : geneset) ≤ 0)%nat. by rewrite size_empty.
  - change (size ({[x]} ∪ list_to_set l : geneset) ≤ S (length l))%nat.
    rewrite size_union_alt, size_singleton.
    pose proof (subseteq_size (list_to_set l ∖ {[x]}) (list_to_set l : geneset))
      as Hle.
    assert ((list_to_set l ∖ {[x]} : geneset) ⊆ list_to_set l) as Hsub
      by set_solver.
    specialize (Hle Hsub). lia.
Qed.

Lemma list_to_set_take_mono (col : list string) (k1 k2 : nat) :
  (k1 ≤ k2)%nat →
  (list_to_set (take k1 col) : geneset) ⊆ list_to_set (take k2 col).
Proof.
  intros Hk x. rewrite !elem_of_list_to_set, !elem_of_take.
  intros (i & Hi & Hlt). exists i. split; [done | lia].
Qed.

Lemma list_to_set_take_subseteq (col : list string) (k : nat) :
  (list_to_set (take k col) : geneset) ⊆ list_to_set col.
Proof.
  intros x. rewrite !elem_of_list_to_set. apply subseteq_take.
Qed.

Lemma count_below_le_length (pcol : list Q) (t : Q) :
  (count_below pcol t ≤ length pcol)%nat.
Proof.
  induction pcol as [|p pcol IH]; [done |].
  rewrite count_below_cons. simpl. destruct (Qltb p t); lia.
Qed.

Lemma count_below_mono (pcol : list Q) (t1 t2 : Q) :
  (t1 <= t2)%Q → (count_below pcol t1 ≤ count_below pcol t2)%nat.
Proof.
  intros Ht. induction pcol as [|p pcol IH]; [done |].
  rewrite !count_below_cons.
  destruct (Qltb p t1) eqn:H1; [| destruct (Qltb p t2); lia].
  apply Qltb_lt in H1.
  assert (Qltb p t2 = true) as ->; [| lia].
  apply Qltb_lt. by apply Qlt_le_trans with t1.
Qed.

Lemma select_markers_threshold rgg names pvals col pcol group (t : Q) :
  get_names rgg = Ok names → get_pvals_adj rgg = Ok pvals →
  getfield names group = Ok col → getfield pvals group = Ok pcol →
  select_markers rgg None (Some t) group
  = Ok (list_to_set (take (count_below pcol t) col)).
Proof.
  intros Hn Hp Hcol Hpcol. cbn. rewrite Hp. cbn. rewrite Hpcol. cbn.
  rewrite Hn. cbn. by rewrite Hcol.
Qed.

(** X7. Selection by threshold is monotone: a larger threshold gives each
    cluster a superset of its genes. The set always comes from the
    cluster's column of names and has at most as many genes as there are
    adjusted p-values. *)
Theorem pval_threshold_monotone (rgg : uns_value) (names : recarray string)
    (pvals : recarray Q) (col : list string) (pcol : list Q)
    (group : string) (t1 t2 : Q) :
  get_names rgg = Ok names → get_pvals_adj rgg = Ok pvals →
  getfield names group = Ok col → getfield pvals group = Ok pcol →
  (t1 <= t2)%Q →
  ∃ s1 s2,
    select_markers rgg None (Some t1) group = Ok s1
    ∧ select_markers rgg None (Some t2) group = Ok s2
    ∧ s1 ⊆ s2 ∧ s2 ⊆ list_to_set col
    ∧ (size s2 ≤ length pcol)%nat.
Proof.
  intros Hn Hp Hcol Hpcol Ht.
  pose proof (λ t0, select_markers_threshold rgg names pvals col pcol group
                      t0 Hn Hp Hcol Hpcol) as Hsel.
  do 2 eexists. split; [apply Hsel |]. split; [apply Hsel |].
  split; [by apply list_to_set_take_mono, count_below_mono |].
  split; [apply list_to_set_take_subseteq |].
  etrans; [apply size_list_to_set_le |]. rewrite length_take.
  pose proof (count_below_le_length pcol t2). lia.
Qed.

Lemma pval_threshold_monotone_witness :
  ∃ s1 s2,
    select_markers pbmc_table None (Some (5 # 100)%Q) "0" = Ok s1
    ∧ select_markers pbmc_table None (Some 1%Q) "0" = Ok s2
    ∧ s1 ⊆ s2 ∧ s2 ⊆ list_to_set ["CD3"; "CD8"]
    ∧ (size s2 ≤ length [1 # 100; 1 # 2]%Q)%nat.
Proof.
  apply (pval_threshold_monotone pbmc_table
           (RecArray 2 [("0", ["CD3"; "CD8"])])
           (RecArray 2 [("0", [1 # 100; 1 # 2]%Q)])
           ["CD3"; "CD8"] [1 # 100; 1 # 2]%Q "0" (5 # 100) 1);
    try reflexivity.
  by vm_compute.
Defined.

(** * Further properties of [marker_gene_overlap] *)

Lemma checked_inputs_key u1 u2 reference_markers key method normalize :
  u1 !! key = u2 !! key →
  checked_inputs u1 reference_markers key method normalize
  = checked_inputs u2 reference_markers key method normalize.
Proof. unfold checked_inputs. by intros ->. Qed.

Lemma checked_inputs_valid u reference_markers key method normalize :
  ¬ invalid_inputs u reference_markers key method normalize →
  ∃ rgg r,
    u !! key = Some rgg ∧ as_sets reference_markers = Some r
    ∧ checked_inputs u reference_markers key method normalize
      = Ok (rgg,
            if bool_decide (normalize = Some "None") then None
            else normalize,
            r).
Proof.
  intros Hvalid. unfold checked_inputs, py_in.
  destruct (u !! key) as [rgg|] eqn:Hkey; [| exfalso; apply Hvalid; by left].
  case_bool_decide as Hm; simpl;
    [| exfalso; apply Hvalid; right; by left].
  set (normalize' := if bool_decide (normalize = Some "None") then None
                     else normalize).
  case_bool_decide as Hn; simpl.
  2: { exfalso. apply Hvalid. do 2 right. left. intros Hin. apply Hn.
       unfold normalize'. case_bool_decide; set_solver. }
  destruct (bool_decide (normalize' ≠ None)
            && bool_decide (method ≠ Some "overlap_count")) eqn:Hc.
  { apply andb_true_iff in Hc as [Hc1 Hc2].
    apply bool_decide_eq_true in Hc1, Hc2.
    exfalso. apply Hvalid. do 3 right. left. split; [| done].
    unfold normalize' in *. case_bool_decide; [done |].
    unfold avail_norm in Hn. set_solver. }
  destruct (as_sets reference_markers) as [r|] eqn:Hs.
  - by exists rgg, r.
  - exfalso. apply Hvalid. do 4 right. by apply as_sets_None.
Qed.

(** X9. The checks are made in a fixed order and the first that fails
    decides the error: a key that is not in [adata.uns] gives a ValueError
    without message whatever the other arguments are; then comes the
    method, then the normalization, and the values of the reference are
    looked at last. In each case the state is as before the call. *)
Theorem check_order reference_markers key method normalize top_n_markers
    adj_pval_threshold key_added w :
  let run := marker_gene_overlap reference_markers key method normalize
               top_n_markers adj_pval_threshold key_added w in
  (uns w !! key = None → run = (w, Raise (ValueError "")))
  ∧ (is_Some (uns w !! key) → method ∉ avail_methods →
     run = (w, Raise (ValueError msg_method)))
  ∧ (is_Some (uns w !! key) → method ∈ avail_methods →
     normalize ∉ Some "None" :: avail_norm →
     run = (w, Raise (ValueError msg_normalize)))
  ∧ (is_Some (uns w !! key) → method ∈ avail_methods →
     normalize = None ∨ normalize = Some "None"
     ∨ method = Some "overlap_count"
       ∧ (normalize = Some "reference" ∨ normalize = Some "data") →
     (∃ k l, (k, PyList l) ∈ reference_markers) →
     run = (w, Raise (ValueError msg_not_sets))).
Proof.
  cbv zeta. rewrite marker_gene_overlap_run. unfold checked_inputs, py_in.
  split; [by intros -> |].
  split; [intros [rgg ->] Hm; by rewrite bool_decide_eq_false_2 |].
  split.
  - intros [rgg ->] Hm Hn. rewrite bool_decide_eq_true_2 by done. simpl.
    rewrite bool_decide_eq_false_2; [done |].
    intros Hin. apply Hn. case_bool_decide; set_solver.
  - intros [rgg ->] Hm Hn Hl%as_sets_None.
    rewrite bool_decide_eq_true_2 by done. simpl. rewrite Hl.
    destruct Hn as [-> | [-> | [-> [-> | ->]]]]; done.
Qed.

Lemma select_markers_pvals_adj names p1 p2 top_n_markers
    adj_pval_threshold group :
  top_n_markers ≠ None ∨ adj_pval_threshold = None →
  select_markers (RankGenesGroups names p1) top_n_markers
    adj_pval_threshold group
  = select_markers (RankGenesGroups names p2) top_n_markers
      adj_pval_threshold group.
Proof.
  intros H. destruct top_n_markers as [n|]; [by destruct names |].
  destruct H as [H | ->]; [done | by destruct names].
Qed.

Lemma data_markers_loop_pvals_adj names p1 p2 top_n_markers
    adj_pval_threshold cluster_ids (data_markers : dict geneset) :
  top_n_markers ≠ None ∨ adj_pval_threshold = None →
  data_markers_loop (RankGenesGroups names p1) top_n_markers
    adj_pval_threshold cluster_ids data_markers
  = data_markers_loop (RankGenesGroups names p2) top_n_markers
      adj_pval_threshold cluster_ids data_markers.
Proof.
  intros H. revert data_markers.
  induction cluster_ids as [|group rest IH]; intros data_markers; [done |].
  cbn [data_markers_loop].
  rewrite (select_markers_pvals_adj names p1 p2) by done.
  destruct (select_markers _ _ _ _) as [s|e]; [| done]. apply IH.
Qed.

Lemma overlap_frame_pvals_adj names p1 p2 reference_markers method normalize
    ref top_n_markers adj_pval_threshold :
  top_n_markers ≠ None ∨ adj_pval_threshold = None →
  overlap_frame (RankGenesGroups names p1) reference_markers method
    normalize ref top_n_markers adj_pval_threshold
  = overlap_frame (RankGenesGroups names p2) reference_markers method
      normalize ref top_n_markers adj_pval_threshold.
Proof.
  intros H. unfold overlap_frame. destruct names as [names|]; [| done].
  cbn. by rewrite (data_markers_loop_pvals_adj (Some names) p1 p2).
Qed.

(** X10. When [top_n_markers] is given, or no threshold is, the entry
    'pvals_adj' of the table plays no part: two tables with the same
    'names', whatever they hold under 'pvals_adj' (nothing, for one),
    give the same outcome, the same log and the same stored data frame. *)
Theorem pvals_adj_not_read (u : gmap string uns_value) (l : list log_record)
    (names : option (recarray string)) (p1 p2 : option (recarray Q))
    reference_markers key method normalize top_n_markers adj_pval_threshold
    key_added :
  top_n_markers ≠ None ∨ adj_pval_threshold = None →
  let run1 := marker_gene_overlap reference_markers key method normalize
                top_n_markers adj_pval_threshold key_added
                (World (<[key := RankGenesGroups names p1]> u) l) in
  let run2 := marker_gene_overlap reference_markers key method normalize
                top_n_markers adj_pval_threshold key_added
                (World (<[key := RankGenesGroups names p2]> u) l) in
  run1.2 = run2.2
  ∧ log run1.1 = log run2.1
  ∧ (run1.2 = Ok tt →
     uns run1.1 !! key_added = uns run2.1 !! key_added).
Proof.
  intros H. cbv zeta. rewrite !marker_gene_overlap_run. cbn [uns log].
  unfold checked_inputs. rewrite !lookup_insert_eq.
  destruct (negb (py_in method avail_methods)); [done |].
  destruct (negb (py_in _ avail_norm)); [done |].
  destruct (_ && _); [done |].
  destruct (as_sets reference_markers) as [r|]; [| done].
  assert (H' : clamped_top_n top_n_markers ≠ None
               ∨ clamped_threshold adj_pval_threshold = None).
  { destruct H as [H | ->]; [left; by destruct top_n_markers | by right]. }
  cbv zeta. rewrite (overlap_frame_pvals_adj names p1 p2) by done.
  destruct (overlap_frame _ _ _ _ _ _ _) as [df|e]; cbn [fst snd uns log].
  - split; [done |]. split; [done |]. intros _.
    by rewrite !lookup_insert_eq.
  - by split.
Qed.

Lemma pvals_adj_not_read_witness :
  let run1 := marker_gene_overlap pbmc_reference "rank_genes_groups"
                (Some "jaccard") None (Some 1%Z) (Some (5 # 100)%Q)
                "marker_gene_overlap"
                (World (<["rank_genes_groups" :=
                           RankGenesGroups
                             (Some (RecArray 2 [("0", ["CD3"; "CD8"])]))
                             None]> ∅) []) in
  let run2 := marker_gene_overlap pbmc_reference "rank_genes_groups"
                (Some "jaccard") None (Some 1%Z) (Some (5 # 100)%Q)
                "marker_gene_overlap"
                (World (<["rank_genes_groups" :=
                           RankGenesGroups
                             (Some (RecArray 2 [("0", ["CD3"; "CD8"])]))
                             (Some (RecArray 2 [("0", [1 # 100; 1 # 2]%Q)]))]>
                          ∅) []) in
  run1.2 = run2.2
  ∧ log run1.1 = log run2.1
  ∧ (run1.2 = Ok tt →
     uns run1.1 !! "marker_gene_overlap"
     = uns run2.1 !! "marker_gene_overlap").
Proof.
  apply (pvals_adj_not_read ∅ [] (Some (RecArray 2 [("0", ["CD3"; "CD8"])]))
           None (Some (RecArray 2 [("0", [1 # 100; 1 # 2]%Q)]))
           pbmc_reference "rank_genes_groups" (Some "jaccard") None
           (Some 1%Z) (Some (5 # 100)%Q) "marker_gene_overlap").
  by left.
Defined.

(** X11. Selection by threshold alone reads 'pvals_adj': when the table has
    names for at least one cluster but nothing under 'pvals_adj', a call
    that passes the checks and has a threshold and no [top_n_markers]
    raises KeyError for 'pvals_adj'. [adata.uns] is unchanged; the
    warnings about the threshold are already in the log. *)
Theorem threshold_needs_pvals_adj reference_markers key method normalize
    (t : Q) key_added w (names : recarray string) :
  uns w !! key = Some (RankGenesGroups (Some names) None) →
  fields names ≠ [] →
  ¬ invalid_inputs (uns w) reference_markers key method normalize →
  marker_gene_overlap reference_markers key method normalize None (Some t)
    key_added w
  = (World (uns w) (log w ++ threshold_warnings None (Some t)),
     Raise (KeyError "pvals_adj")).
Proof.
  intros Hkey Hfields Hvalid. rewrite marker_gene_overlap_run.
  destruct (checked_inputs_valid _ _ _ _ _ Hvalid)
    as (rgg & r & Hkey' & _ & ->).
  assert (rgg = RankGenesGroups (Some names) None) as -> by congruence.
  cbv zeta. unfold overlap_frame. cbn [get_names mbind result_bind rbind].
  unfold dtype_names. destruct (fields names) as [|[g c] rest]; [done |].
  cbn. by rewrite app_nil_r.
Qed.

Lemma threshold_needs_pvals_adj_witness :
  marker_gene_overlap pbmc_reference "rank_genes_groups" (Some "jaccard")
    None None (Some (3 # 2)%Q) "marker_gene_overlap"
    (World {["rank_genes_groups" :=
               RankGenesGroups (Some (RecArray 2 [("0", ["CD3"; "CD8"])]))
                 None]} [])
  = (World {["rank_genes_groups" :=
               RankGenesGroups (Some (RecArray 2 [("0", ["CD3"; "CD8"])]))
                 None]}
       ([] ++ threshold_warnings None (Some (3 # 2)%Q)),
     Raise (KeyError "pvals_adj")).
Proof.
  refine (threshold_needs_pvals_adj pbmc_reference "rank_genes_groups"
            (Some "jaccard") None (3 # 2) "marker_gene_overlap"
            (World {["rank_genes_groups" :=
                       RankGenesGroups
                         (Some (RecArray 2 [("0", ["CD3"; "CD8"])])) None]}
               [])
            (RecArray 2 [("0", ["CD3"; "CD8"])]) _ _ _).
  - reflexivity.
  - discriminate.
  - intros Hinv.
    by apply (checked_inputs_invalid _ _ _ _ _) in Hinv as [msg Hmsg].
Defined.

(** X12. A call that returns can be repeated: when [key_added] is not the
    key of the table, the same call on the resulting state returns again
    and leaves [adata.uns] as the first call left it. *)
Theorem repeated_call reference_markers key method normalize top_n_markers
    adj_pval_threshold key_added w w1 :
  key_added ≠ key →
  marker_gene_overlap reference_markers key method normalize top_n_markers
    adj_pval_threshold key_added w = (w1, Ok tt) →
  ∃ w2,
    marker_gene_overlap reference_markers key method normalize
      top_n_markers adj_pval_threshold key_added w1 = (w2, Ok tt)
    ∧ uns w2 = uns w1.
Proof.
  intros Hne. rewrite !marker_gene_overlap_run.
  destruct (checked_inputs (uns w) _ _ _ _)
    as [[[rgg normalize'] ref]|e] eqn:Hc; [| done].
  cbv zeta.
  destruct (overlap_frame _ _ _ _ _ _ _) as [df|e] eqn:Hf; [| done].
  intros [= <-]. cbn [uns log].
  rewrite (checked_inputs_key _ (uns w)) by by rewrite lookup_insert_ne.
  rewrite Hc. cbv zeta. rewrite Hf.
  eexists. split; [done |]. cbn [uns]. by rewrite insert_insert_eq.
Qed.

Lemma repeated_call_witness :
  ∃ w2,
    marker_gene_overlap pbmc_reference "rank_genes_groups"
      (Some "overlap_coef") None None (Some (5 # 100)%Q)
      "marker_gene_overlap"
      (marker_gene_overlap pbmc_reference "rank_genes_groups"
         (Some "overlap_coef") None None (Some (5 # 100)%Q)
         "marker_gene_overlap" pbmc_world).1
    = (w2, Ok tt)
    ∧ uns w2
      = uns (marker_gene_overlap pbmc_reference "rank_genes_groups"
               (Some "overlap_coef") None None (Some (5 # 100)%Q)
               "marker_gene_overlap" pbmc_world).1.
Proof.
  apply (repeated_call pbmc_reference "rank_genes_groups"
           (Some "overlap_coef") None None (Some (5 # 100)%Q)
           "marker_gene_overlap" pbmc_world).
  - done.
  - by vm_compute.
Defined.

(** * The stored data frame *)

Lemma dict_keys_set_fresh {V} (d : dict V) (k : string) (v : V) :
  k ∉ dict_keys d → dict_keys (dict_set d k v) = (dict_keys d ++ [k])%list.
Proof.
  unfold dict_keys. induction d as [|[k' v'] d IH]; intros Hk; [done |].
  cbn in Hk. apply not_elem_of_cons in Hk as [Hne Hk].
  cbn. destruct (String.eqb_spec k' k) as [-> | _]; [done |].
  cbn. f_equal. by apply IH.
Qed.

Lemma data_markers_loop_keys rgg top_n_markers adj_pval_threshold
    (cluster_ids : list string) (d0 dm : dict geneset) :
  NoDup cluster_ids →
  (∀ k, k ∈ cluster_ids → k ∉ dict_keys d0) →
  data_markers_loop rgg top_n_markers adj_pval_threshold cluster_ids d0
  = Ok dm →
  dict_keys dm = (dict_keys d0 ++ cluster_ids)%list.
Proof.
  intros Hnd. revert d0.
  induction Hnd as [|group rest Hnotin Hnd IH]; intros d0 Hfresh Hloop.
  - cbn in Hloop. injection Hloop as <-. by rewrite app_nil_r.
  - cbn [data_markers_loop] in Hloop.
    destruct (select_markers _ _ _ _) as [s|e]; [| done].
    cbn in Hloop. apply IH in Hloop.
    + rewrite Hloop, dict_keys_set_fresh by (apply Hfresh; left).
      by rewrite <- app_assoc.
    + intros k Hk. rewrite dict_keys_set_fresh by (apply Hfresh; left).
      apply not_elem_of_app. split; [apply Hfresh; by right |].
      apply not_elem_of_cons. split; [| apply not_elem_of_nil].
      intros ->. done.
Qed.

Lemma as_sets_length (reference_markers : dict pyobj) (r : dict geneset) :
  as_sets reference_markers = Some r → length r = length reference_markers.
Proof.
  revert r. induction reference_markers as [|[k v] d IH]; intros r H.
  - by injection H as <-.
  - cbn in H. destruct (as_set v); [| done].
    destruct (as_sets d) as [r'|]; [| done]. injection H as <-.
    cbn. f_equal. by apply IH.
Qed.

Lemma of_count_finite (n : nat) : is_finite (of_count n).
Proof. by eexists. Qed.

Lemma nan_to_num1_finite (x : float64) : is_finite (nan_to_num1 x).
Proof. destruct x; by eexists. Qed.

Lemma py_truediv_finite (a b : nat) (x : float64) :
  py_truediv a b = Ok x → is_finite x.
Proof. destruct b; [done |]. intros [= <-]. by eexists. Qed.

Lemma rmapM_cells_shape {A B : Type} (cell : A → B → result float64)
    (l1 : list A) (l2 : list B) (m : matrix) :
  (∀ g d x, cell g d = Ok x → is_finite x) →
  rmapM (λ g, rmapM (λ d, cell g d) l2) l1 = Ok m →
  well_shaped (length l1) (length l2) m.
Proof.
  intros Hfin Hm%rmapM_Ok_inv. unfold well_shaped.
  split; [by rewrite <- (Forall2_length _ _ _ Hm) |].
  rewrite <- Forall_and.
  induction Hm as [|g row l1 m Hrow _ IH]; constructor; [| done].
  apply rmapM_Ok_inv in Hrow.
  split; [by rewrite <- (Forall2_length _ _ _ Hrow) |].
  clear -Hrow Hfin. induction Hrow as [|d x l2 row Hx _ IH]; constructor;
    [by eapply Hfin | done].
Qed.

Lemma calc_overlap_count_shape (reference_markers data_markers : dict geneset) :
  well_shaped (length reference_markers) (length data_markers)
    (_calc_overlap_count reference_markers data_markers).
Proof.
  unfold well_shaped, _calc_overlap_count.
  split; [by rewrite length_fmap |].
  split; apply Forall_fmap, Forall_forall; intros g _; simpl.
  - by rewrite length_fmap.
  - apply Forall_fmap, Forall_forall. intros i _. apply of_count_finite.
Qed.

Lemma sum_axis0_length (ncols : nat) (m : matrix) :
  Forall (λ row, length row = ncols) m → length (sum_axis0 ncols m) = ncols.
Proof.
  unfold sum_axis0. intros Hm.
  assert (Hacc : length (replicate ncols (Finite 0)) = ncols)
    by apply length_replicate.
  revert Hacc. generalize (replicate ncols (Finite 0)).
  induction Hm as [|row m Hrow _ IH]; intros acc Hacc; [done |].
  cbn. apply IH. rewrite length_zip_with. lia.
Qed.

Lemma find_overlaps_shape (method normalize : option string)
    (reference_markers data_markers : dict geneset) (m : matrix) :
  find_overlaps method normalize reference_markers data_markers
  = Ok (Some m) →
  well_shaped (length reference_markers) (length data_markers) m.
Proof.
  unfold find_overlaps.
  pose proof (calc_overlap_count_shape reference_markers data_markers)
    as (Hrows & Hcols & _).
  repeat case_bool_decide.
  - intros [= <-]. rewrite nan_to_num_divide_rows.
    split; [by rewrite length_fmap |].
    split; apply Forall_fmap; (eapply Forall_impl; [exact Hcols |]);
      intros row Hrow; simpl; unfold normalized_row.
    + by rewrite !length_fmap.
    + apply Forall_fmap, Forall_forall. intros x _. apply nan_to_num1_finite.
  - intros [= <-]. unfold nan_to_num, divide_by_row_vector.
    pose proof (sum_axis0_length _ _ Hcols) as Hs.
    split; [by rewrite !length_fmap |].
    rewrite <- list_fmap_compose.
    split; apply Forall_fmap; (eapply Forall_impl; [exact Hcols |]);
      intros row Hrow; simpl.
    + rewrite length_fmap, length_zip_with, Hs. simpl in Hrow. lia.
    + apply Forall_fmap, Forall_forall. intros x _. apply nan_to_num1_finite.
  - intros [= <-]. apply calc_overlap_count_shape.
  - destruct (_calc_overlap_coef _ _) as [m'|e] eqn:Hm; [| done].
    intros [= <-].
    apply (rmapM_cells_shape
             (λ g i : string * geneset, overlap_coef_cell g.2 i.2)
             _ _ _ (λ g d x, py_truediv_finite _ _ x) Hm).
  - destruct (_calc_jaccard _ _) as [m'|e] eqn:Hm; [| done].
    intros [= <-].
    apply (rmapM_cells_shape
             (λ g i : string * geneset, jaccard_cell g.2 i.2)
             _ _ _ (λ g d x, py_truediv_finite _ _ x) Hm).
  - done.
Qed.

(** X13. When a call returns and the field names of 'names' are distinct,
    what is stored under [key_added] is a data frame whose row labels are
    the keys of the reference, whose column labels are the cluster ids,
    and whose matrix has one row per row label, one entry per column label
    in each row, and only finite numbers (no NaN, no infinity) as
    entries. *)
Theorem stored_frame_well_shaped reference_markers key method normalize
    top_n_markers adj_pval_threshold key_added w w'
    (rgg : uns_value) (names : recarray string) :
  uns w !! key = Some rgg → get_names rgg = Ok names →
  NoDup (dtype_names names) →
  marker_gene_overlap reference_markers key method normalize top_n_markers
    adj_pval_threshold key_added w = (w', Ok tt) →
  ∃ m,
    uns w' !! key_added
    = Some (Frame (MkDataFrame m (dict_keys reference_markers)
                     (dtype_names names)))
    ∧ well_shaped (length (dict_keys reference_markers))
        (length (dtype_names names)) m.
Proof.
  intros Hkey Hnames Hnd. rewrite marker_gene_overlap_run.
  destruct (checked_inputs (uns w) _ _ _ _)
    as [[[rgg' normalize'] ref]|e] eqn:Hc; [| done].
  assert (rgg' = rgg ∧ as_sets reference_markers = Some ref) as [-> Href].
  { unfold checked_inputs in Hc. rewrite Hkey in Hc.
    destruct (negb (py_in method avail_methods)); [done |].
    destruct (negb (py_in _ avail_norm)); [done |].
    destruct (_ && _); [done |].
    destruct (as_sets reference_markers); [| done].
    by injection Hc as -> _ ->. }
  cbv zeta. unfold overlap_frame. rewrite Hnames.
  cbn [mbind result_bind rbind].
  destruct (data_markers_loop _ _ _ _ _) as [dm|e] eqn:Hloop; [| done].
  cbn [mbind result_bind rbind].
  destruct (find_overlaps _ _ _ _) as [[m|]|e] eqn:Hfind; [| done | done].
  intros [= <-]. exists m. cbn [uns]. split; [by rewrite lookup_insert_eq |].
  apply find_overlaps_shape in Hfind.
  apply data_markers_loop_keys in Hloop;
    [| done | intros k _; apply not_elem_of_nil].
  cbn in Hloop. unfold dict_keys in *.
  rewrite length_fmap, <- (as_sets_length _ _ Href), <- Hloop, length_fmap.
  exact Hfind.
Qed.

Lemma stored_frame_well_shaped_witness :
  ∃ m,
    uns (marker_gene_overlap pbmc_reference "rank_genes_groups"
           (Some "overlap_count") (Some "data") None None
           "marker_gene_overlap" pbmc_world).1 !! "marker_gene_overlap"
    = Some (Frame (MkDataFrame m (dict_keys pbmc_reference)
                     (dtype_names (RecArray 2 [("0", ["CD3"; "CD8"])]))))
    ∧ well_shaped (length (dict_keys pbmc_reference))
        (length (dtype_names (RecArray 2 [("0", ["CD3"; "CD8"])]))) m.
Proof.
  refine (stored_frame_well_shaped pbmc_reference "rank_genes_groups"
            (Some "overlap_count") (Some "data") None None
            "marker_gene_overlap" pbmc_world _ pbmc_table
            (RecArray 2 [("0", ["CD3"; "CD8"])]) _ _ _ _).
  - reflexivity.
  - reflexivity.
  - apply NoDup_singleton.
  - by vm_compute.
Defined.

(** * The log of a call *)

Lemma warnings_of_a_call (top_n_markers : option Z)
    (adj_pval_threshold : option Q) :
  let ws := (threshold_warnings top_n_markers adj_pval_threshold
             ++ top_n_warnings top_n_markers)%list in
  Forall (λ r, ∃ msg, r = LogWarn msg) ws ∧ (length ws ≤ 3)%nat.
Proof.
  cbv zeta. unfold threshold_warnings, top_n_warnings.
  destruct adj_pval_threshold as [t|], top_n_markers as [n|];
    try destruct (n <? 1)%Z; try destruct (Qltb t 0) eqn:H0;
    try destruct (Qltb 1 t) eqn:H1; cbn;
    try (split; [repeat constructor; by eexists | lia]).
  all: exfalso; apply Qltb_lt in H0, H1; apply (Qlt_irrefl 1);
    apply Qlt_trans with t; [done |]; by apply Qlt_trans with 0%Q.
Qed.

(** X14. A call adds to the log at most three warnings (about the
    threshold, about both hints being given, about [top_n_markers]) and
    nothing else, except that a call that returns adds, last, the hint
    naming [key_added]; a call that raises adds no hint. *)
Theorem log_of_a_call reference_markers key method normalize top_n_markers
    adj_pval_threshold key_added w :
  let run := marker_gene_overlap reference_markers key method normalize
               top_n_markers adj_pval_threshold key_added w in
  ∃ ws,
    log run.1
    = (log w ++ ws
       ++ match run.2 with
          | Ok _ => [LogHint (msg_added key_added)]
          | Raise _ => []
          end)%list
    ∧ Forall (λ r, ∃ msg, r = LogWarn msg) ws
    ∧ (length ws ≤ 3)%nat.
Proof.
  cbv zeta. rewrite marker_gene_overlap_run.
  destruct (checked_inputs _ _ _ _ _) as [[[rgg normalize'] ref]|e].
  - pose proof (warnings_of_a_call top_n_markers adj_pval_threshold)
      as [Hws Hlen].
    cbv zeta in *.
    exists (threshold_warnings top_n_markers adj_pval_threshold
            ++ top_n_warnings top_n_markers)%list.
    destruct (overlap_frame _ _ _ _ _ _ _) as [df|e]; cbn [fst snd log].
    + split; [by rewrite <- ?app_assoc | done].
    + split; [by rewrite app_nil_r, <- ?app_assoc | done].
  - exists []. cbn. split; [by rewrite app_nil_r |].
    split; [constructor | lia].
Qed.

(** * The data markers of a call *)

Lemma assoc_NoDup {A} (fs : list (string * A)) (g : string) (col : A) :
  NoDup (fst <$> fs) → (g, col) ∈ fs → assoc fs g = Some col.
Proof.
  induction fs as [|[g' col'] fs IH]; intros Hnd Hin;
    [by apply elem_of_nil in Hin |].
  cbn in Hnd. apply NoDup_cons in Hnd as [Hnotin Hnd].
  cbn. destruct (String.eqb_spec g' g) as [-> | Hne].
  - apply elem_of_cons in Hin as [[= <-] | Hin]; [done |].
    exfalso. apply Hnotin. apply list_elem_of_fmap. by exists (g, col).
  - apply elem_of_cons in Hin as [[= ? ?] | Hin]; [congruence |].
    by apply IH.
Qed.

Lemma assoc_Some_elem {A} (fs : list (string * A)) (g : string) (col : A) :
  assoc fs g = Some col → (g, col) ∈ fs.
Proof.
  induction fs as [|[g' col'] fs IH]; [done |]. cbn.
  destruct (String.eqb_spec g' g) as [-> | Hne].
  - intros [= ->]. left.
  - intros H. right. by apply IH.
Qed.

Lemma dict_set_fresh {V} (d : dict V) (k : string) (v : V) :
  k ∉ dict_keys d → dict_set d k v = (d ++ [(k, v)])%list.
Proof.
  unfold dict_keys. induction d as [|[k' v'] d IH]; intros Hk; [done |].
  cbn in Hk. apply not_elem_of_cons in Hk as [Hne Hk].
  cbn. destruct (String.eqb_spec k' k) as [-> | _]; [done |].
  f_equal. by apply IH.
Qed.

Lemma data_markers_loop_sets rgg top_n_markers adj_pval_threshold
    (fs d0 : dict geneset) :
  NoDup (fst <$> fs) →
  (∀ k, k ∈ fst <$> fs → k ∉ dict_keys d0) →
  (∀ g s, (g, s) ∈ fs →
          select_markers rgg top_n_markers adj_pval_threshold g = Ok s) →
  data_markers_loop rgg top_n_markers adj_pval_threshold (fst <$> fs) d0
  = Ok (d0 ++ fs)%list.
Proof.
  revert d0. induction fs as [|[g s] fs IH]; intros d0 Hnd Hfresh Hsel.
  - cbn. by rewrite app_nil_r.
  - cbn in Hnd. apply NoDup_cons in Hnd as [Hnotin Hnd].
    cbn [fmap list_fmap data_markers_loop fst]. fold (fst <$> fs).
    rewrite (Hsel g s) by left. cbn [mbind result_bind rbind].
    rewrite dict_set_fresh by (apply Hfresh; left).
    rewrite IH; [by rewrite <- app_assoc | done | |].
    + intros k Hk. unfold dict_keys. rewrite fmap_app.
      apply not_elem_of_app. split; [apply Hfresh; by right |].
      cbn. apply not_elem_of_cons. split; [| apply not_elem_of_nil].
      by intros ->.
    + intros g' s' Hin. apply Hsel. by right.
Qed.

Lemma data_markers_loop_top_n_sets (names : recarray string)
    (pvals : option (recarray Q)) (n : Z) (adj_pval_threshold : option Q) :
  NoDup (dtype_names names) →
  data_markers_loop (RankGenesGroups (Some names) pvals)
    (Some (Z.max 1 n)) adj_pval_threshold (dtype_names names) []
  = Ok (top_n_sets n names).
Proof.
  intros Hnd.
  assert (Hkeys : fst <$> top_n_sets n names = dtype_names names).
  { unfold top_n_sets, dtype_names. rewrite <- list_fmap_compose.
    by apply list_fmap_ext. }
  rewrite <- Hkeys.
  rewrite (data_markers_loop_sets _ _ _ (top_n_sets n names) []);
    [done | by rewrite Hkeys | intros k _; apply not_elem_of_nil |].
  intros g s Hin. unfold top_n_sets in Hin.
  apply list_elem_of_fmap in Hin as ([g' col] & [= -> ->] & Hin).
  rewrite select_markers_top_n. cbn.
  unfold getfield. rewrite (assoc_NoDup _ _ _ Hnd Hin). cbn.
  do 2 f_equal. unfold py_prefix.
  destruct (Z.ltb_spec (Z.min (Z.max 1 n) (Z.of_nat (shape0 names))) 0);
    [lia |]. f_equal. lia.
Qed.

Lemma data_markers_loop_threshold_sets (names : recarray string)
    (pvals : recarray Q) (t : Q) :
  NoDup (dtype_names names) →
  (∀ g, g ∈ dtype_names names → is_Some (assoc (fields pvals) g)) →
  data_markers_loop (RankGenesGroups (Some names) (Some pvals))
    None (Some t) (dtype_names names) []
  = Ok (threshold_sets t names pvals).
Proof.
  intros Hnd Hpv.
  assert (Hkeys : fst <$> threshold_sets t names pvals = dtype_names names).
  { unfold threshold_sets, dtype_names. rewrite <- list_fmap_compose.
    by apply list_fmap_ext. }
  rewrite <- Hkeys.
  rewrite (data_markers_loop_sets _ _ _ (threshold_sets t names pvals) []);
    [done | by rewrite Hkeys | intros k _; apply not_elem_of_nil |].
  intros g s Hin. unfold threshold_sets in Hin.
  apply list_elem_of_fmap in Hin as ([g' col] & [= -> ->] & Hin).
  destruct (Hpv g') as [pcol Hpcol].
  { unfold dtype_names. apply list_elem_of_fmap. by exists (g', col). }
  cbn [fst snd]. rewrite Hpcol. cbn [default].
  rewrite <- count_below_filter.
  apply (select_markers_threshold _ names pvals col pcol); try done.
  - unfold getfield. by rewrite (assoc_NoDup _ _ _ Hnd Hin).
  - unfold getfield. by rewrite Hpcol.
Qed.

(** A call that passes the checks, on a table with names, once the loop
    of lines 171-181 has given [data]. *)
Lemma marker_gene_overlap_selected reference_markers key method normalize
    top_n_markers adj_pval_threshold key_added w
    (rgg : uns_value) (names : recarray string) (data : dict geneset) :
  uns w !! key = Some rgg → get_names rgg = Ok names →
  ¬ invalid_inputs (uns w) reference_markers key method normalize →
  data_markers_loop rgg (clamped_top_n top_n_markers)
    (clamped_threshold adj_pval_threshold) (dtype_names names) []
  = Ok data →
  ∃ refsets,
    as_sets reference_markers = Some refsets
    ∧ marker_gene_overlap reference_markers key method normalize
        top_n_markers adj_pval_threshold key_added w
      = store_overlaps reference_markers method
          (if bool_decide (normalize = Some "None") then None
           else normalize)
          refsets data (dtype_names names) key_added (uns w)
          (log w ++ threshold_warnings top_n_markers adj_pval_threshold
           ++ top_n_warnings top_n_markers).
Proof.
  intros Hkey Hnames Hvalid Hloop.
  destruct (checked_inputs_valid _ _ _ _ _ Hvalid)
    as (rgg' & refsets & Hkey' & Href & Hc).
  assert (rgg' = rgg) as -> by congruence.
  exists refsets. split; [done |].
  rewrite marker_gene_overlap_run, Hc. cbv zeta.
  unfold overlap_frame, store_overlaps. rewrite Hnames.
  cbn [mbind result_bind rbind]. rewrite Hloop.
  cbn [mbind result_bind rbind].
  by destruct (find_overlaps _ _ _ _) as [[m|]|e].
Qed.

(** The outcome of a call and what it stores depend on the selection hints
    through the data frame of the clamped hints only. *)
Lemma marker_gene_overlap_clamped reference_markers key method normalize
    top1 top2 thr1 thr2 key_added w :
  (∀ rgg normalize' ref,
     overlap_frame rgg reference_markers method normalize' ref
       (clamped_top_n top1) (clamped_threshold thr1)
     = overlap_frame rgg reference_markers method normalize' ref
         (clamped_top_n top2) (clamped_threshold thr2)) →
  let run1 := marker_gene_overlap reference_markers key method normalize
                top1 thr1 key_added w in
  let run2 := marker_gene_overlap reference_markers key method normalize
                top2 thr2 key_added w in
  run1.2 = run2.2 ∧ uns run1.1 = uns run2.1.
Proof.
  intros Hframe. cbv zeta. rewrite !marker_gene_overlap_run.
  destruct (checked_inputs _ _ _ _ _) as [[[rgg normalize'] ref]|e];
    [| done].
  cbv zeta. rewrite Hframe.
  by destruct (overlap_frame _ _ _ _ _ _ _) as [df|e].
Qed.

Lemma store_overlaps_log reference_markers method normalize ref data
    cluster_ids key_added u l (r : log_record) :
  r ∈ l →
  r ∈ log (store_overlaps reference_markers method normalize ref data
             cluster_ids key_added u l).1.
Proof.
  intros Hr. unfold store_overlaps.
  destruct (find_overlaps _ _ _ _) as [[m|]|e]; cbn [fst log]; set_solver.
Qed.

(** C6. With both [top_n_markers = n] and [adj_pval_threshold = t] given,
    the call has the outcome and leaves the [adata.uns] of the call without
    the threshold. When the arguments pass the checks and the table has
    distinct cluster ids, the call is lines 189-222 run on the data markers
    that give each cluster the first min(max(n, 1), rows) names of its
    column, whatever [t] and the p-values are: that matrix is stored, and
    the warning that the threshold is ignored is in the log. *)
Theorem top_n_takes_precedence reference_markers key method normalize
    (n : Z) (t : Q) key_added w :
  let both := marker_gene_overlap reference_markers key method normalize
                (Some n) (Some t) key_added w in
  let top_only := marker_gene_overlap reference_markers key method normalize
                    (Some n) None key_added w in
  both.2 = top_only.2
  ∧ uns both.1 = uns top_only.1
  ∧ (∀ (names : recarray string) (pvals : option (recarray Q)),
       uns w !! key = Some (RankGenesGroups (Some names) pvals) →
       NoDup (dtype_names names) →
       ¬ invalid_inputs (uns w) reference_markers key method normalize →
       ∃ refsets,
         as_sets reference_markers = Some refsets
         ∧ both
           = store_overlaps reference_markers method
               (if bool_decide (normalize = Some "None") then None
                else normalize)
               refsets (top_n_sets n names) (dtype_names names) key_added
               (uns w)
               (log w ++ threshold_warnings (Some n) (Some t)
                ++ top_n_warnings (Some n))
         ∧ LogWarn msg_both ∈ log both.1).
Proof.
  cbv zeta. split_and!.
  - apply marker_gene_overlap_clamped. intros rgg normalize' ref.
    cbn. apply overlap_frame_top_n.
  - apply marker_gene_overlap_clamped. intros rgg normalize' ref.
    cbn. apply overlap_frame_top_n.
  - intros names pvals Hkey Hnd Hvalid.
    destruct (marker_gene_overlap_selected reference_markers key method
                normalize (Some n) (Some t) key_added w _ names
                (top_n_sets n names) Hkey eq_refl Hvalid)
      as (refsets & Href & Hrun).
    { cbn. by apply data_markers_loop_top_n_sets. }
    exists refsets. split; [done |]. split; [done |].
    rewrite Hrun. apply store_overlaps_log.
    unfold threshold_warnings. set_solver.
Qed.

(** On the table of two genes with adjusted p-values 0.01 and 0.5, the
    call with [top_n_markers = 2] and the threshold 0.05 stores the count
    2: both genes are selected. The threshold alone selects one gene. *)
Lemma top_n_takes_precedence_witness :
  marker_gene_overlap tcell_reference "rank_genes_groups"
    (Some "overlap_count") None (Some 2%Z) (Some (5 # 100)%Q)
    "marker_gene_overlap" pbmc_world
  = (World (<["marker_gene_overlap" :=
               Frame (MkDataFrame [[Finite 2]] ["Tcell"] ["0"])]>
              (uns pbmc_world))
       [LogWarn msg_both; LogHint (msg_added "marker_gene_overlap")],
     Ok tt)
  ∧ marker_gene_overlap tcell_reference "rank_genes_groups"
      (Some "overlap_count") None None (Some (5 # 100)%Q)
      "marker_gene_overlap" pbmc_world
    = (World (<["marker_gene_overlap" :=
                 Frame (MkDataFrame [[Finite 1]] ["Tcell"] ["0"])]>
                (uns pbmc_world))
         [LogHint (msg_added "marker_gene_overlap")],
       Ok tt).
Proof.
  split; [| by vm_compute].
  destruct (top_n_takes_precedence tcell_reference "rank_genes_groups"
              (Some "overlap_count") None 2 (5 # 100) "marker_gene_overlap"
              pbmc_world) as (_ & _ & H).
  destruct (H (RecArray 2 [("0", ["CD3"; "CD8"])])
              (Some (RecArray 2 [("0", [1 # 100; 1 # 2]%Q)])))
    as (refsets & Href & Hrun & _).
  - reflexivity.
  - apply NoDup_singleton.
  - eapply checked_inputs_Ok. by vm_compute.
  - injection Href as <-. rewrite Hrun. by vm_compute.
Defined.

Lemma clamped_threshold_cases (t : Q) :
  let t' := if Qltb t 0 then 0%Q else if Qltb 1 t then 1%Q else t in
  ((t < 0)%Q →
   t' = 0%Q ∧ threshold_warnings None (Some t) = [LogWarn msg_pval_below])
  ∧ ((1 < t)%Q →
     t' = 1%Q ∧ threshold_warnings None (Some t) = [LogWarn msg_pval_above])
  ∧ ((0 <= t)%Q ∧ (t <= 1)%Q →
     t' = t ∧ threshold_warnings None (Some t) = []).
Proof.
  cbv zeta. unfold threshold_warnings.
  assert (Hlo : (t < 0)%Q → Qltb t 0 = true ∧ Qltb 1 t = false).
  { intros Hlt. split; [by apply Qltb_lt |].
    apply not_true_iff_false. intros Hb%Qltb_lt.
    apply (Qlt_irrefl 1), Qlt_trans with t; [done |].
    by apply Qlt_trans with 0%Q. }
  assert (Hhi : (1 < t)%Q → Qltb t 0 = false ∧ Qltb 1 t = true).
  { intros Hlt. split; [| by apply Qltb_lt].
    apply not_true_iff_false. intros Hb%Qltb_lt.
    apply (Qlt_irrefl 1), Qlt_trans with t; [done |].
    by apply Qlt_trans with 0%Q. }
  assert (Hin : (0 <= t)%Q ∧ (t <= 1)%Q →
                Qltb t 0 = false ∧ Qltb 1 t = false).
  { intros [H0 H1].
    split; apply not_true_iff_false; intros Hb%Qltb_lt;
      by apply Qlt_not_le in Hb. }
  split; [intros [H0 H1]%Hlo; by rewrite H0, H1 |].
  split; [intros [H0 H1]%Hhi; by rewrite H0, H1 |].
  intros [H0 H1]%Hin; by rewrite H0, H1.
Qed.

Lemma find_overlaps_returns (method normalize : option string)
    (ref data : dict geneset) :
  method = Some "overlap_count" ∨ method = Some "overlap_coef" →
  ∃ m, find_overlaps method normalize ref data = Ok (Some m).
Proof.
  intros [-> | ->]; unfold find_overlaps.
  - rewrite bool_decide_eq_true_2 by done.
    repeat case_bool_decide; by eexists.
  - rewrite bool_decide_eq_false_2 by done.
    rewrite bool_decide_eq_true_2 by done.
    destruct (rmapM_Ok (λ g, rmapM (λ i, overlap_coef_cell g.2 i.2) data)
                (λ _ _, True) ref) as (m & Hm & _).
    { intros g _.
      destruct (rmapM_Ok (λ i, overlap_coef_cell g.2 i.2) (λ _ _, True)
                  data) as (row & Hrow & _); [| by exists row].
      intros i _. destruct (overlap_coef_cell_spec g.2 i.2) as (x & Hx & _).
      by exists x. }
    exists m. unfold _calc_overlap_coef. by rewrite Hm.
Qed.

(** C7. With a threshold [t] and no [top_n_markers], on arguments that pass
    the checks and a table with distinct cluster ids and adjusted p-values
    for each of them, the call is lines 189-222 run on the data markers
    that give each cluster the first [k] names of its column, [k] being
    the number of its adjusted p-values strictly below [t'], where [t'] is
    0 with one warning if [t < 0], 1 with one warning if [1 < t], and [t]
    with no warning otherwise. A cluster with no p-value below [t'] gets
    the empty set, and with the methods 'overlap_count' and 'overlap_coef'
    the call returns. *)
Theorem pval_threshold_selection reference_markers key method normalize
    (t : Q) key_added w (names : recarray string) (pvals : recarray Q) :
  uns w !! key = Some (RankGenesGroups (Some names) (Some pvals)) →
  NoDup (dtype_names names) →
  (∀ g, g ∈ dtype_names names → is_Some (assoc (fields pvals) g)) →
  ¬ invalid_inputs (uns w) reference_markers key method normalize →
  let run := marker_gene_overlap reference_markers key method normalize
               None (Some t) key_added w in
  ∃ refsets t' warnings,
    as_sets reference_markers = Some refsets
    ∧ ((t < 0)%Q → t' = 0%Q ∧ warnings = [LogWarn msg_pval_below])
    ∧ ((1 < t)%Q → t' = 1%Q ∧ warnings = [LogWarn msg_pval_above])
    ∧ ((0 <= t)%Q ∧ (t <= 1)%Q → t' = t ∧ warnings = [])
    ∧ run
      = store_overlaps reference_markers method
          (if bool_decide (normalize = Some "None") then None
           else normalize)
          refsets (threshold_sets t' names pvals) (dtype_names names)
          key_added (uns w) (log w ++ warnings)
    ∧ (∀ g col pcol,
         (g, col) ∈ fields names → assoc (fields pvals) g = Some pcol →
         Forall (λ p, ¬ (p < t')%Q) pcol →
         (g, ∅) ∈ threshold_sets t' names pvals)
    ∧ (method = Some "overlap_count" ∨ method = Some "overlap_coef" →
       run.2 = Ok tt).
Proof.
  intros Hkey Hnd Hpv Hvalid. cbv zeta.
  set (t' := if Qltb t 0 then 0%Q else if Qltb 1 t then 1%Q else t).
  destruct (marker_gene_overlap_selected reference_markers key method
              normalize None (Some t) key_added w _ names
              (threshold_sets t' names pvals) Hkey eq_refl Hvalid)
    as (refsets & Href & Hrun).
  { cbn. by apply data_markers_loop_threshold_sets. }
  exists refsets, t', (threshold_warnings None (Some t)).
  destruct (clamped_threshold_cases t) as (Hlo & Hhi & Hin).
  split; [done |]. split; [exact Hlo |]. split; [exact Hhi |].
  split; [exact Hin |]. split; [| split].
  - rewrite Hrun. cbn [top_n_warnings]. by rewrite app_nil_r.
  - intros g col pcol Hcol Hpcol Hall. unfold threshold_sets.
    apply list_elem_of_fmap. exists (g, col). split; [| done].
    cbn [fst snd]. rewrite Hpcol. cbn [default].
    rewrite <- count_below_filter, count_below_none by done. done.
  - intros Hm. rewrite Hrun. unfold store_overlaps.
    destruct (find_overlaps_returns method
                (if bool_decide (normalize = Some "None") then None
                 else normalize)
                refsets (threshold_sets t' names pvals) Hm) as [m ->].
    done.
Qed.

(** On a table whose second gene has the adjusted p-value 1, the threshold
    3/2 is brought to 1 and selects the first gene only: the stored count
    is 1. *)
Lemma pval_threshold_selection_witness :
  marker_gene_overlap tcell_reference "rank_genes_groups"
    (Some "overlap_count") None None (Some (3 # 2)%Q)
    "marker_gene_overlap" unit_pval_world
  = (World (<["marker_gene_overlap" :=
               Frame (MkDataFrame [[Finite 1]] ["Tcell"] ["0"])]>
              (uns unit_pval_world))
       [LogWarn msg_pval_above; LogHint (msg_added "marker_gene_overlap")],
     Ok tt).
Proof.
  destruct (pval_threshold_selection tcell_reference "rank_genes_groups"
              (Some "overlap_count") None (3 # 2) "marker_gene_overlap"
              unit_pval_world (RecArray 2 [("0", ["CD3"; "CD8"])])
              (RecArray 2 [("0", [1 # 100; 1]%Q)]))
    as (refsets & t' & warnings & Href & _ & Hhi & _ & Hrun & _).
  - reflexivity.
  - apply NoDup_singleton.
  - intros g Hg. apply list_elem_of_singleton in Hg as ->. by eexists.
  - eapply checked_inputs_Ok. by vm_compute.
  - destruct Hhi as [-> ->]; [done |].
    injection Href as <-. rewrite Hrun. by vm_compute.
Defined.

Lemma checked_inputs_Ok_key u reference_markers key method normalize
    rgg normalize' ref :
  checked_inputs u reference_markers key method normalize
  = Ok (rgg, normalize', ref) →
  u !! key = Some rgg.
Proof.
  unfold checked_inputs. destruct (u !! key) as [rgg'|]; [| done].
  destruct (negb (py_in method avail_methods)); [done |].
  destruct (negb (py_in _ avail_norm)); [done |].
  destruct (_ && _); [done |].
  destruct (as_sets reference_markers); [| done].
  by intros [= -> _ _].
Qed.

Lemma data_markers_loop_ext rgg top1 thr1 top2 thr2 cluster_ids
    (data_markers : dict geneset) :
  (∀ g, select_markers rgg top1 thr1 g = select_markers rgg top2 thr2 g) →
  data_markers_loop rgg top1 thr1 cluster_ids data_markers
  = data_markers_loop rgg top2 thr2 cluster_ids data_markers.
Proof.
  intros Hsel. revert data_markers.
  induction cluster_ids as [|group rest IH]; intros data_markers; [done |].
  cbn [data_markers_loop]. rewrite Hsel.
  destruct (select_markers rgg top2 thr2 group) as [s|e]; [| done].
  apply IH.
Qed.

Lemma select_markers_top_n_all (names : recarray string)
    (pvals : option (recarray Q)) (n : Z) (g : string) :
  (1 ≤ n)%Z →
  Forall (λ c : string * list string,
            (length c.2 ≤ Z.to_nat n)%nat ∧ (length c.2 ≤ shape0 names)%nat)
    (fields names) →
  select_markers (RankGenesGroups (Some names) pvals) (Some n) None g
  = select_markers (RankGenesGroups (Some names) pvals) None None g.
Proof.
  intros Hn Hall. cbn. unfold getfield.
  destruct (assoc (fields names) g) as [col|] eqn:Hcol; [| done].
  apply assoc_Some_elem in Hcol.
  rewrite Forall_forall in Hall. destruct (Hall _ Hcol) as [H1 H2].
  cbn in *. do 2 f_equal. unfold py_prefix.
  destruct (Z.ltb_spec (Z.min n (Z.of_nat (shape0 names))) 0); [lia |].
  apply take_ge. lia.
Qed.

(** X6. With [top_n_markers = n] below 1 the call has the outcome and
    leaves the [adata.uns] of the call with [top_n_markers = 1]. With n at
    least 1 and at least the number of names of every cluster, and no
    threshold, the call is the call without any selection hint. With the
    method 'overlap_count' and no normalization, on a table with distinct
    cluster ids, a call that returns has stored a matrix of counts that are
    all at most max(n, 1). *)
Theorem top_n_selection reference_markers key method normalize (n : Z)
    (adj_pval_threshold : option Q) key_added w :
  let run top := marker_gene_overlap reference_markers key method normalize
                   top adj_pval_threshold key_added w in
  ((n < 1)%Z →
   (run (Some n)).2 = (run (Some 1%Z)).2
   ∧ uns (run (Some n)).1 = uns (run (Some 1%Z)).1)
  ∧ (∀ (names : recarray string) (pvals : option (recarray Q)),
       uns w !! key = Some (RankGenesGroups (Some names) pvals) →
       (1 ≤ n)%Z →
       Forall (λ c : string * list string,
                 (length c.2 ≤ Z.to_nat n)%nat
                 ∧ (length c.2 ≤ shape0 names)%nat)
         (fields names) →
       adj_pval_threshold = None →
       run (Some n) = run None)
  ∧ (∀ (names : recarray string) (pvals : option (recarray Q)) w',
       uns w !! key = Some (RankGenesGroups (Some names) pvals) →
       NoDup (dtype_names names) →
       method = Some "overlap_count" → normalize = None →
       run (Some n) = (w', Ok tt) →
       ∃ m,
         uns w' !! key_added
         = Some (Frame (MkDataFrame m (dict_keys reference_markers)
                          (dtype_names names)))
         ∧ Forall (Forall (λ x, ∃ k : nat,
                             x = of_count k
                             ∧ (k ≤ Z.to_nat (Z.max 1 n))%nat)) m).
Proof.
  cbv zeta. split_and!.
  - intros Hn. apply marker_gene_overlap_clamped.
    intros rgg normalize' ref. cbn.
    by replace (Z.max 1 n) with 1%Z by lia.
  - intros names pvals Hkey Hn Hall ->.
    rewrite !marker_gene_overlap_run.
    destruct (checked_inputs _ _ _ _ _) as [[[rgg normalize'] ref]|e] eqn:Hc;
      [| done].
    apply checked_inputs_Ok_key in Hc.
    assert (rgg = RankGenesGroups (Some names) pvals) as -> by congruence.
    cbn [threshold_warnings top_n_warnings clamped_top_n clamped_threshold
         fmap option_fmap option_map].
    destruct (Z.ltb_spec n 1); [lia |].
    replace (Z.max 1 n) with n by lia.
    unfold overlap_frame. cbn [get_names mbind result_bind rbind].
    rewrite (data_markers_loop_ext _ (Some n) None None None);
      [done |].
    intros g. by apply select_markers_top_n_all.
  - intros names pvals w' Hkey Hnd -> -> Hrun.
    assert (Hvalid : ¬ invalid_inputs (uns w) reference_markers key
                       (Some "overlap_count") None).
    { rewrite marker_gene_overlap_run in Hrun.
      destruct (checked_inputs _ _ _ _ _) as [v|e] eqn:Hc; [| done].
      by apply checked_inputs_Ok in Hc. }
    destruct (marker_gene_overlap_selected reference_markers key
                (Some "overlap_count") None (Some n) adj_pval_threshold
                key_added w _ names (top_n_sets n names) Hkey eq_refl
                Hvalid)
      as (refsets & Href & Hsel).
    { cbn. by apply data_markers_loop_top_n_sets. }
    rewrite Hsel in Hrun. unfold store_overlaps, find_overlaps in Hrun.
    rewrite bool_decide_eq_true_2 in Hrun by done.
    rewrite !bool_decide_eq_false_2 in Hrun by done.
    cbn [mret result_ret] in Hrun. injection Hrun as <-.
    eexists. cbn [uns]. split; [by rewrite lookup_insert_eq |].
    unfold _calc_overlap_count.
    apply Forall_fmap, Forall_forall. intros g _.
    apply Forall_fmap, Forall_forall. intros i Hi.
    exists (size (i.2 ∩ g.2)). split; [done |].
    unfold top_n_sets in Hi.
    apply list_elem_of_fmap in Hi as ([g' col] & -> & _). cbn [fst snd].
    etrans; [apply size_inter_le_l |].
    etrans; [apply size_list_to_set_le |].
    rewrite length_take. lia.
Qed.

(** With [top_n_markers = 0] the first gene of the cluster is selected:
    the stored count is 1. *)
Lemma top_n_selection_witness :
  (marker_gene_overlap tcell_reference "rank_genes_groups"
     (Some "overlap_count") None (Some 0%Z) None "marker_gene_overlap"
     pbmc_world).2
  = Ok tt
  ∧ uns (marker_gene_overlap tcell_reference "rank_genes_groups"
           (Some "overlap_count") None (Some 0%Z) None
           "marker_gene_overlap" pbmc_world).1
    = <["marker_gene_overlap" :=
         Frame (MkDataFrame [[Finite 1]] ["Tcell"] ["0"])]>
        (uns pbmc_world).
Proof.
  pose proof (top_n_selection tcell_reference "rank_genes_groups"
                (Some "overlap_count") None 0 None "marker_gene_overlap"
                pbmc_world) as H.
  cbv beta zeta in H. destruct H as (H & _ & _).
  destruct H as [H2 H1]; [reflexivity |].
  split.
  - etrans; [exact H2 |]. by vm_compute.
  - etrans; [exact H1 |]. by vm_compute.
Defined.

Lemma threshold_sets_empty (t : Q) (names : recarray string)
    (pvals : recarray Q) :
  Forall (λ c : string * list Q, Forall (λ p, ¬ (p < t)%Q) c.2)
    (fields pvals) →
  threshold_sets t names pvals = empty_sets names.
Proof.
  intros Hall. unfold threshold_sets, empty_sets.
  apply list_fmap_ext. intros _ [g col] _. cbn [fst snd]. f_equal.
  destruct (assoc (fields pvals) g) as [pcol|] eqn:Hpcol; [| done].
  apply assoc_Some_elem in Hpcol. rewrite Forall_forall in Hall.
  cbn [default]. pose proof (Hall _ Hpcol) as Hp. cbn [snd] in Hp.
  rewrite <- count_below_filter. change (id pcol) with pcol.
  by rewrite (count_below_none _ _ Hp).
Qed.

(** X8. A threshold above 1 gives the outcome and the [adata.uns] of the
    threshold 1, and a threshold below 0 those of the threshold 0. Without
    [top_n_markers], on arguments that pass the checks and a table with
    distinct cluster ids and adjusted p-values for each of them, when the
    threshold is 0 or below and no p-value is negative, or when every
    p-value is 1 or more, the call is lines 189-222 run on data markers
    that give every cluster the empty set. *)
Theorem pval_threshold_extremes reference_markers key method normalize
    top_n_markers (t : Q) key_added w :
  let run t := marker_gene_overlap reference_markers key method normalize
                 top_n_markers (Some t) key_added w in
  ((1 < t)%Q →
   (run t).2 = (run 1%Q).2 ∧ uns (run t).1 = uns (run 1%Q).1)
  ∧ ((t < 0)%Q →
     (run t).2 = (run 0%Q).2 ∧ uns (run t).1 = uns (run 0%Q).1)
  ∧ (∀ (names : recarray string) (pvals : recarray Q),
       top_n_markers = None →
       uns w !! key = Some (RankGenesGroups (Some names) (Some pvals)) →
       NoDup (dtype_names names) →
       (∀ g, g ∈ dtype_names names → is_Some (assoc (fields pvals) g)) →
       ¬ invalid_inputs (uns w) reference_markers key method normalize →
       ((t <= 0)%Q
        ∧ Forall (λ c : string * list Q, Forall (λ p, (0 <= p)%Q) c.2)
            (fields pvals))
       ∨ Forall (λ c : string * list Q, Forall (λ p, (1 <= p)%Q) c.2)
           (fields pvals) →
       ∃ refsets,
         as_sets reference_markers = Some refsets
         ∧ run t
           = store_overlaps reference_markers method
               (if bool_decide (normalize = Some "None") then None
                else normalize)
               refsets (empty_sets names) (dtype_names names) key_added
               (uns w) (log w ++ threshold_warnings None (Some t))).
Proof.
  cbv zeta.
  destruct (clamped_threshold_cases t) as (Hlo & Hhi & Hin).
  cbv zeta in Hlo, Hhi, Hin. split_and!.
  - intros [Ht _]%Hhi. apply marker_gene_overlap_clamped.
    intros rgg normalize' ref.
    cbn [clamped_threshold fmap option_fmap option_map]. by rewrite Ht.
  - intros [Ht _]%Hlo. apply marker_gene_overlap_clamped.
    intros rgg normalize' ref.
    cbn [clamped_threshold fmap option_fmap option_map]. by rewrite Ht.
  - intros names pvals -> Hkey Hnd Hpv Hvalid Hcase.
    set (t' := if Qltb t 0 then 0%Q else if Qltb 1 t then 1%Q else t) in *.
    destruct (marker_gene_overlap_selected reference_markers key method
                normalize None (Some t) key_added w _ names
                (threshold_sets t' names pvals) Hkey eq_refl Hvalid)
      as (refsets & Href & Hrun).
    { cbn. by apply data_markers_loop_threshold_sets. }
    exists refsets. split; [done |].
    rewrite Hrun. cbn [top_n_warnings]. rewrite app_nil_r.
    rewrite threshold_sets_empty; [done |].
    assert (Hle1 : (t' <= 1)%Q).
    { unfold t'. destruct (Qltb t 0); [done |].
      destruct (Qltb 1 t) eqn:H1; [done |].
      apply Qnot_lt_le. intros Hlt%Qltb_lt. congruence. }
    destruct Hcase as [[Ht Hall] | Hall].
    + assert (Ht' : (t' <= 0)%Q).
      { unfold t'. destruct (Qltb t 0); [done |].
        destruct (Qltb 1 t) eqn:H1; [| done].
        apply Qltb_lt in H1. exfalso. apply (Qlt_irrefl 1).
        apply Qlt_le_trans with t; [done |]. by apply Qle_trans with 0%Q. }
      eapply Forall_impl; [exact Hall |]. intros c Hc.
      eapply Forall_impl; [exact Hc |]. intros p Hp0 Hlt.
      apply (Qlt_irrefl p). apply Qlt_le_trans with t'; [done |].
      by apply Qle_trans with 0%Q.
    + eapply Forall_impl; [exact Hall |]. intros c Hc.
      eapply Forall_impl; [exact Hc |]. intros p Hp1 Hlt.
      apply (Qlt_irrefl p). apply Qlt_le_trans with t'; [done |].
      by apply Qle_trans with 1%Q.
Qed.

(** With the threshold -1 the cluster gets no gene: the stored count is
    0. *)
Lemma pval_threshold_extremes_witness :
  marker_gene_overlap tcell_reference "rank_genes_groups"
    (Some "overlap_count") None None (Some (-1)%Q) "marker_gene_overlap"
    pbmc_world
  = (World (<["marker_gene_overlap" :=
               Frame (MkDataFrame [[Finite 0]] ["Tcell"] ["0"])]>
              (uns pbmc_world))
       [LogWarn msg_pval_below; LogHint (msg_added "marker_gene_overlap")],
     Ok tt).
Proof.
  pose proof (pval_threshold_extremes tcell_reference "rank_genes_groups"
                (Some "overlap_count") None None (-1) "marker_gene_overlap"
                pbmc_world) as H.
  cbv beta zeta in H. destruct H as (_ & _ & H).
  destruct (H (RecArray 2 [("0", ["CD3"; "CD8"])])
              (RecArray 2 [("0", [1 # 100; 1 # 2]%Q)]))
    as (refsets & Href & Hrun).
  - reflexivity.
  - reflexivity.
  - apply NoDup_singleton.
  - intros g Hg. apply list_elem_of_singleton in Hg as ->. by eexists.
  - eapply checked_inputs_Ok. by vm_compute.
  - left. split; [done |]. repeat constructor; done.
  - injection Href as <-. etrans; [exact Hrun |]. by vm_compute.
Defined.
